(** * Clump hierarchy of yt's level-set analysis
    (yt/analysis_modules/level_sets/clump_handling.py)

    Python objects are mutable and shared: a [Clump] is reached through its
    parent's [children] list and points back through [parent], and its
    [clump_info] attribute is a list object that [add_info_item] appends to in
    place.  The embedding keeps one store with the [Clump] objects (an address
    is an index in [objs]) and the list objects bound to [clump_info] (a
    location is an index in [lists]).  Code is written in a state and error
    monad over that store; recursion over the object graph takes fuel.

    Not modelled: the [print] statements (output only), and the attribute
    [quantities], which is always [data.quantities]. *)

From stdpp Require Import gmap strings list sorting pretty.

Set Default Proof Using "Type".

(** ** Collaborators outside clump_handling.py *)

(** [cids], second component of [identify_contours]: keyed by the parent grid
    id, a list of pairs of a slice and the array of contour ids in it. *)
Definition Cids (GridId Slice : Type) : Type :=
  list (GridId * list (Slice * list Z)).

Class Collaborators := {
  Region : Type;          (* a yt data container: [self.data] *)
  Field : Type;           (* a field of the dataset: [data[field]] is an
                             array with one element per cell of [data] *)
  Val : Type;             (* field values and thresholds (floats in yt) *)
  CachedFields : Type;
  Fn : Type;              (* the text given to [eval] by [_isValid] *)
  Params : Type;          (* the [*args, **kwargs] of an info item *)
  Callback : Type;        (* what [clump_info_registry.find] returns *)
  GridId : Type;
  Slice : Type;
  Pf : Type;              (* the parameter file pickled with a region *)
  (* data[field].min() and .max(), for a region that has cells *)
  field_min : Region → Field → Val;
  field_max : Region → Field → Val;
  ones_size : Region → nat;                   (* data["ones"].size *)
  identify_contours :
    Region → Field → Val → Val → nat * Cids GridId Slice;
  (* data.cut_region(["obj['contours'] == cid"], {'contour_slices': cids}) *)
  cut_region : Region → Z → Cids GridId Slice → Region;
  val_ge : Val → Val → bool;                  (* min_val >= max_val *)
  val_mul : Val → Val → Val;                  (* min_val * d_clump *)
  (* clump_info_registry.find(name, *args, **kwargs); [None]: it raises *)
  registry_find : string → Params → option Callback;
  no_params : Params;                         (* a call with the name only *)
  default_function : Fn
}.

(** ** Results of running Python code *)

Inductive exn :=
  NameError | KeyError | AttributeError | TypeError | IndexError | ValueError.

Inductive result (A : Type) :=
  | Ok (a : A)
  | Raise (e : exn)
  | OutOfFuel.
Arguments Ok {A} a.
Arguments Raise {A} e.
Arguments OutOfFuel {A}.

#[export] Instance result_ret : MRet result := λ A a, Ok a.
#[export] Instance result_bind : MBind result := λ A B k r,
  match r with
  | Ok a => k a
  | Raise e => Raise e
  | OutOfFuel => OutOfFuel
  end.

(** An attribute that [object.__new__] leaves without a value. *)
Inductive attr (A : Type) := Missing | Has (a : A).
Arguments Missing {A}.
Arguments Has {A} a.

(** Addresses of clumps and locations of list objects in the store. *)
Abbreviation addr := nat (only parsing).
Abbreviation loc := nat (only parsing).

(** ** Files *)

(** A file object: what has been written to it, in order, and whether it has
    been closed.  The writers take a path or an open file. *)
Record File := mkFile { written : list string; closed : bool }.
Inductive FileArg := Path (name : string) | Handle (f : File).

Definition open_w (name : string) : File := mkFile [] false.
Definition fwrite (x : string) (f : File) : File :=
  mkFile (written f ++ [x]) (closed f).
Definition fclose (f : File) : File := mkFile (written f) true.

Definition nl : string := String (Ascii.ascii_of_nat 10) EmptyString.
Definition tab : string := String (Ascii.ascii_of_nat 9) EmptyString.
(** ['\t' * level] *)
Fixpoint tabs (level : nat) : string :=
  match level with
  | O => EmptyString
  | S n => tab +:+ tabs n
  end.

Section Model.
Context `{Co : Collaborators}.

(** ** The objects *)

(** What [parent] can hold: [None], a clump, or the pair of a parameter file
    and a clump that unpickling produces for a root. *)
Inductive PyRef := PNone | PObj (a : addr) | PPair (pf : Pf) (a : addr).

Record Clump := mkClump {
  parent : PyRef;
  data : Region;
  field : Field;
  min_val : Val;
  max_val : Val;
  cached_fields : attr CachedFields;
  clump_info : loc;
  function : option Fn;               (* [None] is Python's *)
  function_value : option bool;       (* [None] until [_isValid] has run *)
  children : option (list addr)       (* the class attribute is [None] *)
}.

(** [evals] counts the calls of [eval(self.function)]; nothing reads it. *)
Record Store := mkStore {
  objs : list Clump;
  lists : list (list Callback);
  evals : nat
}.

Definition set_parent (p : PyRef) (c : Clump) : Clump :=
  mkClump p (data c) (field c) (min_val c) (max_val c) (cached_fields c)
          (clump_info c) (function c) (function_value c) (children c).
Definition set_data (d : Region) (c : Clump) : Clump :=
  mkClump (parent c) d (field c) (min_val c) (max_val c) (cached_fields c)
          (clump_info c) (function c) (function_value c) (children c).
Definition set_clump_info (l : loc) (c : Clump) : Clump :=
  mkClump (parent c) (data c) (field c) (min_val c) (max_val c)
          (cached_fields c) l (function c) (function_value c) (children c).
Definition set_function_value (v : option bool) (c : Clump) : Clump :=
  mkClump (parent c) (data c) (field c) (min_val c) (max_val c)
          (cached_fields c) (clump_info c) (function c) v (children c).
Definition set_children (k : option (list addr)) (c : Clump) : Clump :=
  mkClump (parent c) (data c) (field c) (min_val c) (max_val c)
          (cached_fields c) (clump_info c) (function c) (function_value c) k.

Definition with_objs (o : list Clump) (s : Store) : Store :=
  mkStore o (lists s) (evals s).
Definition with_lists (l : list (list Callback)) (s : Store) : Store :=
  mkStore (objs s) l (evals s).

(** ** The monad *)

Definition M (A : Type) : Type := Store → result (A * Store).

#[export] Instance M_ret : MRet M := λ A a s, Ok (a, s).
#[export] Instance M_bind : MBind M := λ A B k m s,
  match m s with
  | Ok (a, s1) => k a s1
  | Raise e => Raise e
  | OutOfFuel => OutOfFuel
  end.
Definition raise {A} (e : exn) : M A := λ _, Raise e.
Definition out_of_fuel {A} : M A := λ _, OutOfFuel.

Definition lift {A} (r : result A) : M A :=
  λ s, match r with
       | Ok a => Ok (a, s)
       | Raise e => Raise e
       | OutOfFuel => OutOfFuel
       end.
(** [try: m  except KeyError: handler], for an [m] that only reads. *)
Definition except_KeyError {A} (m handler : M A) : M A :=
  λ s, match m s with
       | Raise KeyError => handler s
       | r => r
       end.

Fixpoint for_each {A} (l : list A) (body : A → M unit) : M unit :=
  match l with
  | [] => mret tt
  | x :: l' => body x;; for_each l' body
  end.

(** Attribute access on an object, and writes to it. *)
Definition get_obj (a : addr) : M Clump :=
  λ s, match objs s !! a with
       | Some c => Ok (c, s)
       | None => Raise AttributeError
       end.
Definition upd_obj (a : addr) (f : Clump → Clump) : M unit :=
  λ s, match objs s !! a with
       | Some c => Ok (tt, with_objs (<[a := f c]> (objs s)) s)
       | None => Raise AttributeError
       end.
Definition new_obj (c : Clump) : M addr :=
  λ s, Ok (length (objs s), with_objs (objs s ++ [c]) s).

Definition get_parent (a : addr) : M PyRef :=
  c ← get_obj a; mret (parent c).

(** List objects: creation, reading, [append] in place, [copy.deepcopy]. *)
Definition new_list (xs : list Callback) : M loc :=
  λ s, Ok (length (lists s), with_lists (lists s ++ [xs]) s).
Definition get_list (l : loc) : M (list Callback) :=
  λ s, match lists s !! l with
       | Some xs => Ok (xs, s)
       | None => Raise AttributeError
       end.
Definition list_append (l : loc) (x : Callback) : M unit :=
  λ s, match lists s !! l with
       | Some xs => Ok (tt, with_lists (<[l := xs ++ [x]]> (lists s)) s)
       | None => Raise AttributeError
       end.
Definition deepcopy (l : loc) : M loc :=
  xs ← get_list l; new_list xs.

End Model.

(** What Python evaluates against the live objects: the validity test handed
    to [eval] (it sees [self], hence the whole store) and an info item called
    on a clump.  Both only read. *)
Class Evaluators `{Co : Collaborators} := {
  eval_function : Fn → Store → addr → bool;
  item_value : Callback → Store → addr → string;
  (* data[request], behind [Clump.__getitem__] *)
  data_getitem : Region → Z → result PyRef
}.

Section Methods.
Context `{Ev : Evaluators}.

(** ** class Clump *)

(** [add_info_item(self, info_item, *args, **kwargs)] *)
Fixpoint add_info_item (fuel : nat) (self : addr) (info_item : string)
    (params : Params) : M unit :=
  match fuel with
  | O => out_of_fuel
  | S fuel' =>
    callback ← (match registry_find info_item params with
                | Some cb => mret cb
                | None => raise KeyError
                end);
    c ← get_obj self;
    list_append (clump_info c) callback;;
    c ← get_obj self;
    match children c with
    | None => mret tt
    | Some kids =>
      for_each kids (λ child, add_info_item fuel' child info_item no_params)
    end
  end.

(** [set_default_clump_info(self)] *)
Definition set_default_clump_info (fuel : nat) (self : addr) : M unit :=
  l ← new_list [];
  upd_obj self (set_clump_info l);;
  add_info_item fuel self "total_cells" no_params;;
  add_info_item fuel self "cell_mass" no_params;;
  add_info_item fuel self "mass_weighted_jeans_mass" no_params;;
  add_info_item fuel self "volume_weighted_jeans_mass" no_params;;
  add_info_item fuel self "max_grid_level" no_params;;
  add_info_item fuel self "min_number_density" no_params;;
  add_info_item fuel self "max_number_density" no_params.

(** [data[field].min()] and [data[field].max()], the first things that
    [Clump.__init__] computes: on a region without cells the array is empty
    and numpy raises ValueError. *)
Definition field_bounds (data : Region) (field : Field) : M (Val * Val) :=
  if bool_decide (ones_size data = 0) then raise ValueError
  else mret (field_min data field, field_max data field).

(** [Clump.__init__].  The record is allocated with all its attributes at
    once.  With [clump_info=None] it starts on an empty list that
    [set_default_clump_info] replaces at once; the new object has no children
    yet, so one unit of fuel is what [add_info_item] needs there. *)
Definition Clump_init (data : Region) (parent : PyRef) (field : Field)
    (cached_fields : CachedFields) (function : option Fn)
    (clump_info : option loc) : M addr :=
  '(mi, ma) ← field_bounds data field;
  l ← (match clump_info with
       | None => new_list []
       | Some inherited => deepcopy inherited
       end);
  self ← new_obj
    (mkClump parent data field mi ma
             (Has cached_fields) l
             (Some (match function with
                    | None => default_function
                    | Some f => f
                    end))
             None None);
  (match clump_info with
   | None => set_default_clump_info 1 self
   | Some _ => mret tt
   end);;
  mret self.

(** [np.unique(ff)] and [sorted(unique_contours)] *)
Definition np_unique (ff : list Z) : list Z :=
  merge_sort Z.le (elements (list_to_set ff : gset Z)).
Definition sorted (s : gset Z) : list Z := merge_sort Z.le (elements s).

(** The two nested loops filling [unique_contours] from [cids.values()]. *)
Definition unique_contours (cids : Cids GridId Slice) : gset Z :=
  foldl (λ acc sl_list,
           foldl (λ acc '(sl, ff), acc ∪ list_to_set (np_unique ff))
                 acc sl_list)
        ∅ (cids.*2).

(** [find_children(self, min_val, max_val=None)] *)
Definition find_children (self : addr) (min_v : Val)
    (max_v : option Val) : M unit :=
  upd_obj self (set_children (Some []));;
  c ← get_obj self;
  let max_v := match max_v with
               | None => max_val c
               | Some m => m
               end in
  let '(nj, cids) := identify_contours (data c) (field c) min_v max_v in
  for_each (sorted (unique_contours cids)) (λ cid,
    if bool_decide (cid = (-1)%Z) then mret tt else
    c ← get_obj self;
    let new_clump := cut_region (data c) cid cids in
    if bool_decide (ones_size new_clump = 0) then mret tt else
    cf ← (match cached_fields c with
          | Has cf => mret cf
          | Missing => raise AttributeError
          end);
    child ← Clump_init new_clump (PObj self) (field c) cf
                       (function c) (Some (clump_info c));
    c ← get_obj self;
    match children c with
    | Some kids => upd_obj self (set_children (Some (kids ++ [child])))
    | None => raise AttributeError
    end).

(** [eval(self.function)] *)
Definition eval (f : Fn) (self : addr) : M bool :=
  λ s, Ok (eval_function f s self, mkStore (objs s) (lists s) (S (evals s))).

(** [_isValid(self)] *)
Definition _isValid (self : addr) : M bool :=
  c ← get_obj self;
  match function_value c with
  | None =>
    f ← (match function c with
         | Some f => mret f
         | None => raise TypeError
         end);
    v ← eval f self;
    upd_obj self (set_function_value (Some v));;
    mret v
  | Some v => mret v
  end.

(** [__getitem__(self, request)] *)
Definition Clump_getitem (self : addr) (request : Z) : M PyRef :=
  c ← get_obj self;
  lift (data_getitem (data c) request).

(** [__reduce__(self)]: the arguments handed to [_reconstruct_clump]. *)
Definition Clump_reduce (c : Clump) :=
  (parent c, field c, min_val c, max_val c, function_value c, children c,
   data c, clump_info c, function c).

(** ** Module-level functions *)

(** The names that clump_handling.py binds, by import or by definition, are
    [copy], [np], [clump_info_registry], [identify_contours], [Clump],
    [_reconstruct_clump], [find_clumps], [get_lowest_clumps],
    [write_clump_index] and [write_clumps].  [iterable] is not among them and
    is no builtin of Python 2: the name is unbound when [_reconstruct_clump]
    looks it up. *)
Definition module_iterable : option (PyRef → bool) := None.

(** [_reconstruct_clump].  [iterable] is the binding of that global name when
    the function runs, [None] when the name is unbound.  Unpickling hands in
    [data] as the pair of the parameter file and the region.  The new object
    is allocated where the source assigns its attributes; [cached_fields] is
    never assigned. *)
Definition _reconstruct_clump (iterable : option (PyRef → bool))
    (parent : PyRef) (field : Field) (mi ma : Val)
    (function_value : option bool) (children : option (list addr))
    (data : Pf * Region) (clump_info : loc) (function : option Fn)
    : M PyRef :=
  parent ← (match iterable with
            | None => raise NameError
            | Some iterable =>
              if iterable parent then
                match parent with
                | PPair _ p => mret (PObj p)
                | PObj p => except_KeyError (Clump_getitem p 1) (mret parent)
                | PNone => raise TypeError
                end
              else mret parent
            end);
  let children := match children with
                  | None => []
                  | Some l => l
                  end in
  obj ← new_obj (mkClump parent data.2 field mi ma Missing clump_info
                         function function_value (Some children));
  for_each children (λ child, upd_obj child (set_parent (PObj obj)));;
  upd_obj obj (set_data data.2);;
  p ← get_parent obj;
  match p with
  | PNone => mret (PPair data.1 obj)
  | _ => mret (PObj obj)
  end.

(** [write_info(self, level, f_ptr)] on the store [s] *)
Definition write_info (s : Store) (self : addr) (level : nat)
    (f_ptr : File) : result File :=
  match objs s !! self with
  | None => Raise AttributeError
  | Some c =>
    match lists s !! clump_info c with
    | None => Raise AttributeError
    | Some items =>
      Ok (foldl (λ f item,
                   let value := item_value item s self in
                   fwrite (tabs level +:+ value +:+ nl) f)
                f_ptr items)
    end
  end.

(** The for loops of the two writers over [clump.children]; the file object
    is shared by all the calls. *)
Fixpoint write_each (write : addr → File → result File)
    (kids : list addr) (fh : File) : result File :=
  match kids with
  | [] => Ok fh
  | child :: kids' => fh ← write child fh; write_each write kids' fh
  end.

(** [write_clump_index(clump, level, fh)] *)
Fixpoint write_clump_index (fuel : nat) (s : Store) (clump : addr)
    (level : nat) (fh : FileArg) : result File :=
  match fuel with
  | O => OutOfFuel
  | S fuel' =>
    let '(fh, top) := match fh with
                      | Handle f => (f, false)
                      | Path name => (open_w name, true)
                      end in
    let fh := foldl (λ f q, fwrite tab f) fh (seq 0 level) in
    let fh := fwrite ("Clump at level " +:+ pretty level +:+ ":" +:+ nl) fh in
    fh ← write_info s clump level fh;
    let fh := fwrite nl fh in
    c ← (match objs s !! clump with
         | Some c => Ok c
         | None => Raise AttributeError
         end);
    fh ← (match children c with
          | Some ((_ :: _) as kids) =>
            write_each
              (λ child fh,
                 write_clump_index fuel' s child (level + 1) (Handle fh))
              kids fh
          | _ => Ok fh
          end);
    Ok (if (top : bool) then fclose fh else fh)
  end.

(** [write_clumps(clump, level, fh)] *)
Fixpoint write_clumps (fuel : nat) (s : Store) (clump : addr)
    (level : nat) (fh : FileArg) : result File :=
  match fuel with
  | O => OutOfFuel
  | S fuel' =>
    let '(fh, top) := match fh with
                      | Handle f => (f, false)
                      | Path name => (open_w name, true)
                      end in
    c ← (match objs s !! clump with
         | Some c => Ok c
         | None => Raise AttributeError
         end);
    fh ← (match children c with
          | Some (_ :: _) => Ok fh
          | _ =>
            let fh := fwrite (tabs level +:+ "Clump:" +:+ nl) fh in
            fh ← write_info s clump level fh;
            Ok (fwrite nl fh)
          end);
    fh ← (match children c with
          | Some ((_ :: _) as kids) =>
            write_each
              (λ child fh, write_clumps fuel' s child 0 (Handle fh))
              kids fh
          | _ => Ok fh
          end);
    Ok (if (top : bool) then fclose fh else fh)
  end.

(** The for loop of [find_clumps] over [clump.children]; [recurse] is the
    recursive call on a child, [these_children] the list built so far. *)
Definition has_children (c : Clump) : bool :=
  match children c with
  | Some (_ :: _) => true
  | _ => false
  end.

Fixpoint investigate (recurse : addr → M unit)
    (kids these_children : list addr) : M (list addr) :=
  match kids with
  | [] => mret these_children
  | child :: kids' =>
    recurse child;;
    c ← get_obj child;
    if has_children c
    then investigate recurse kids' (these_children ++ [child])
    else
      valid ← _isValid child;
      if (valid : bool)
      then investigate recurse kids' (these_children ++ [child])
      else investigate recurse kids' these_children
  end.

(** The end of [find_clumps]: what [clump.children] becomes, given the
    children that survived. *)
Definition link_survivors (clump : addr) (these_children : list addr)
    : M unit :=
  if bool_decide (1 < length these_children) then
    upd_obj clump (set_children (Some these_children))
  else if bool_decide (length these_children = 1) then
    match these_children !! 0 with
    | Some survivor =>
      sc ← get_obj survivor;
      upd_obj clump (set_children (children sc))
    | None => raise IndexError
    end
  else upd_obj clump (set_children (Some [])).

(** [find_clumps(clump, min_val, max_val, d_clump)] *)
Fixpoint find_clumps (fuel : nat) (clump : addr)
    (min_v max_v d_clump : Val) : M unit :=
  match fuel with
  | O => out_of_fuel
  | S fuel' =>
    if val_ge min_v max_v then mret tt else
    find_children clump min_v None;;
    c ← get_obj clump;
    match children c with
    | None => raise TypeError
    | Some kids =>
      if bool_decide (length kids = 1) then
        find_clumps fuel' clump (val_mul min_v d_clump) max_v d_clump
      else if bool_decide (0 < length kids) then
        these_children ←
          investigate
            (λ child,
               find_clumps fuel' child (val_mul min_v d_clump) max_v d_clump)
            kids [];
        link_survivors clump these_children
      else mret tt
    end
  end.

End Methods.

(** ** The other functions of the module *)

Section MoreMethods.
Context `{Ev : Evaluators}.

(** [clear_clump_info(self)] *)
Fixpoint clear_clump_info (fuel : nat) (self : addr) : M unit :=
  match fuel with
  | O => out_of_fuel
  | S fuel' =>
    l ← new_list [];
    upd_obj self (set_clump_info l);;
    c ← get_obj self;
    match children c with
    | None => mret tt
    | Some kids => for_each kids (λ child, clear_clump_info fuel' child)
    end
  end.

(** The for loop of [get_lowest_clumps]: every call appends to the one list
    object that is handed down; [clump_list] is its content. *)
Fixpoint collect_each (collect : addr → list addr → result (list addr))
    (kids : list addr) (clump_list : list addr) : result (list addr) :=
  match kids with
  | [] => Ok clump_list
  | child :: kids' =>
    clump_list ← collect child clump_list;
    collect_each collect kids' clump_list
  end.

(** [get_lowest_clumps(clump, clump_list=None)] on the store [s] *)
Fixpoint get_lowest_clumps (fuel : nat) (s : Store) (clump : addr)
    (clump_list : option (list addr)) : result (list addr) :=
  match fuel with
  | O => OutOfFuel
  | S fuel' =>
    let clump_list := match clump_list with
                      | None => []
                      | Some l => l
                      end in
    c ← (match objs s !! clump with
         | Some c => Ok c
         | None => Raise AttributeError
         end);
    let clump_list := match children c with
                      | Some (_ :: _) => clump_list
                      | _ => clump_list ++ [clump]
                      end in
    clump_list ← (match children c with
                  | Some ((_ :: _) as kids) =>
                    collect_each
                      (λ child l, get_lowest_clumps fuel' s child (Some l))
                      kids clump_list
                  | _ => Ok clump_list
                  end);
    Ok clump_list
  end.

End MoreMethods.

(** * Vocabulary of the statements *)

Section Vocabulary.
Context `{Co : Collaborators}.

(** The contour ids for which [find_children] makes a child. *)
Definition makes_child (r : Region) (cids : Cids GridId Slice) (cid : Z) : Prop :=
  cid ≠ (-1)%Z ∧ ones_size (cut_region r cid cids) ≠ 0.
#[export] Instance makes_child_dec r cids cid : Decision (makes_child r cids cid).
Proof. unfold makes_child. apply _. Defined.

(** Those ids, in the order in which [find_children] goes through them. *)
Definition child_ids (r : Region) (f : Field) (mn mx : Val) : list Z :=
  let cids := (identify_contours r f mn mx).2 in
  filter (makes_child r cids) (sorted (unique_contours cids)).

(** The child that [find_children] constructs on the node [c] at [self] for
    the contour [cid], with its info items in the list at [l]. *)
Definition child_of (c : Clump) (self : addr) (cids : Cids GridId Slice)
    (cf : CachedFields) (l : loc) (cid : Z) : Clump :=
  let d := cut_region (data c) cid cids in
  mkClump (PObj self) d (field c) (field_min d (field c))
          (field_max d (field c)) (Has cf) l
          (Some (default default_function (function c))) None None.

(** The store that [find_children] leaves when it made children for [ids]:
    the children follow the objects of [s], their lists the lists of [s]. *)
Definition after_children (s : Store) (self : addr) (c : Clump)
    (cids : Cids GridId Slice) (cf : CachedFields) (xs : list Callback)
    (ids : list Z) : Store :=
  mkStore
    (<[self := set_children (Some (seq (length (objs s)) (length ids))) c]>
       (objs s)
     ++ imap (λ i, child_of c self cids cf (length (lists s) + i)) ids)
    (lists s ++ replicate (length ids) xs)
    (evals s).

(** A contour id occurs in [cids] when some array of some grid holds it. *)
Definition contour_id_in (cids : Cids GridId Slice) (cid : Z) : Prop :=
  ∃ g sl_list sl ff, (g, sl_list) ∈ cids ∧ (sl, ff) ∈ sl_list ∧ cid ∈ ff.

(** [a.children] and [a.data] in the store [s]. *)
Definition children_of (s : Store) (a : addr) : option (list addr) :=
  objs s !! a ≫= children.
Definition region_of (s : Store) (a : addr) : option Region :=
  data <$> objs s !! a.

(** A node that went through [Clump.__init__]: its [cached_fields] is set
    and its [clump_info] is a list of the store. *)
Definition constructed (s : Store) (a : addr) : Prop :=
  ∃ c cf xs, objs s !! a = Some c ∧ cached_fields c = Has cf ∧
             lists s !! clump_info c = Some xs.

(** [children] is unset: [find_children] has not run on the node. *)
Definition unset (s : Store) (k : addr) : Prop :=
  k < length (objs s) ∧ children_of s k = None.

(** A node with exactly one child has an only child that was never
    decomposed. *)
Definition lone_ok (s : Store) (b : addr) : Prop :=
  ∀ k, children_of s b = Some [k] → unset s k.

(** The objects from [lo] on: all constructed, their children at [hi] or
    above, and [lone_ok]. *)
Record tidy (lo hi : nat) (s : Store) : Prop := {
  tidy_constructed : ∀ b, lo ≤ b < length (objs s) → constructed s b;
  tidy_kids : ∀ b kids k,
    lo ≤ b → children_of s b = Some kids → k ∈ kids → hi ≤ k;
  tidy_lone : ∀ b, lo ≤ b → lone_ok s b
}.

(** What a call on [a] may do to the store [s]: allocate, and rebind
    [a.children]. *)
Record effect (s s' : Store) (a : addr) : Prop := {
  eff_len : length (objs s) ≤ length (objs s');
  eff_old : ∀ b, b < length (objs s) → b ≠ a → objs s' !! b = objs s !! b;
  eff_self : ∃ c k,
    objs s !! a = Some c ∧ objs s' !! a = Some (set_children k c);
  eff_lists : lists s `prefix_of` lists s';
  eff_tidy : tidy (length (objs s)) (length (objs s)) s';
  eff_kids :
    children_of s' a = children_of s a ∨
    ∀ kids k, children_of s' a = Some kids → k ∈ kids → length (objs s) ≤ k;
  eff_lone : lone_ok s a → lone_ok s' a
}.

(** A child that the loop keeps, and one that it drops. *)
Definition retained (s : Store) (k : addr) : Prop :=
  ∃ c, objs s !! k = Some c ∧
       (has_children c = true ∨
        (has_children c = false ∧ function_value c = Some true)).
Definition dropped (s : Store) (k : addr) : Prop :=
  ∃ c, objs s !! k = Some c ∧
       has_children c = false ∧ function_value c = Some false.

(** [b] is [a] or one of its descendants through the [children] lists. *)
Inductive reach (s : Store) : addr → addr → Prop :=
  | reach_refl a : reach s a a
  | reach_step a kids k b :
      children_of s a = Some kids → k ∈ kids → reach s k b → reach s a b.


(** The cached validity of a node. *)
Definition validity_of (s : Store) (a : addr) : option (option bool) :=
  function_value <$> objs s !! a.

(** Two clumps that differ at most in which list object they hold. *)
Definition same_content (s1 s2 : Store) (k1 k2 : addr) : Prop :=
  ∃ c1 c2, objs s1 !! k1 = Some c1 ∧ objs s2 !! k2 = Some c2 ∧
           set_clump_info 0 c1 = set_clump_info 0 c2 ∧
           is_Some (lists s1 !! clump_info c1) ∧
           lists s1 !! clump_info c1 = lists s2 !! clump_info c2.

End Vocabulary.

Section MoreVocabulary.
Context `{Ev : Evaluators}.

(** The lines that [write_info] writes for the info items [items] of the
    clump at [a]. *)
Definition info_lines (s : Store) (a : addr) (level : nat)
    (items : list Callback) : list string :=
  map (λ item, tabs level +:+ item_value item s a +:+ nl) items.

(** What [write_clumps] writes for a childless clump: the heading, the info
    lines, an empty line. *)
Definition leaf_block (s : Store) (level : nat) (b : addr) (f : File)
    : result File :=
  f ← write_info s b level (fwrite (tabs level +:+ "Clump:" +:+ nl) f);
  Ok (fwrite nl f).

(** [fh.close()] after a writer that returned. *)
Definition closing (r : result File) : result File :=
  f ← r; Ok (fclose f).

(** A clump without children: [children] is unset or the empty list. *)
Definition childless (s : Store) (a : addr) : Prop :=
  ∃ c, objs s !! a = Some c ∧ has_children c = false.

(** The level at which [write_clumps] writes its blocks: the one it is given
    when the clump itself is childless, 0 below it. *)
Definition leaf_level (s : Store) (a : addr) (level : nat) : nat :=
  match children_of s a with
  | Some (_ :: _) => 0
  | _ => level
  end.

(** What [clear_clump_info] may do to the store: rebind [clump_info] of
    clumps to new empty lists, leaving every list object that exists as it
    is. *)
Record clearing (s s' : Store) : Prop := {
  clr_len : length (objs s') = length (objs s);
  clr_objs : ∀ b c, objs s !! b = Some c →
    ∃ l, objs s' !! b = Some (set_clump_info l c) ∧
         (l = clump_info c ∨ length (lists s) ≤ l < length (lists s'));
  clr_lists : lists s `prefix_of` lists s';
  clr_new : ∀ l, length (lists s) ≤ l → l < length (lists s') →
                 lists s' !! l = Some [];
  clr_evals : evals s' = evals s
}.

(** The clump at [b] holds an empty list that did not exist in [s]. *)
Definition holds_new_empty_list (s s' : Store) (b : addr) : Prop :=
  ∃ c', objs s' !! b = Some c' ∧ length (lists s) ≤ clump_info c' ∧
        lists s' !! clump_info c' = Some [].

(** What [add_info_item] may do to the store: append to list objects. *)
Record appending (s s' : Store) : Prop := {
  app_objs : objs s' = objs s;
  app_evals : evals s' = evals s;
  app_len : length (lists s') = length (lists s);
  app_lists : ∀ l xs, lists s !! l = Some xs →
                      ∃ ys, lists s' !! l = Some (xs ++ ys)
}.

(** Between [s] and [s'] the info list of the clump at [b] has gained the
    item [cb]. *)
Definition gained (s s' : Store) (b : addr) (cb : Callback) : Prop :=
  ∃ c xs ys, objs s !! b = Some c ∧ lists s !! clump_info c = Some xs ∧
             lists s' !! clump_info c = Some (xs ++ ys) ∧ cb ∈ ys.

(** The names of the default info items, in the order of
    [set_default_clump_info]. *)
Definition default_info_items : list string :=
  ["total_cells"; "cell_mass"; "mass_weighted_jeans_mass";
   "volume_weighted_jeans_mass"; "max_grid_level"; "min_number_density";
   "max_number_density"].

(** A store as the constructor and [find_clumps] build it: every clump has
    its cached fields, an info list and a validity test, and the children of
    a clump are clumps made after it. *)
Record well_formed (s : Store) : Prop := {
  wf_built : ∀ b c, objs s !! b = Some c →
    (∃ cf, cached_fields c = Has cf) ∧ is_Some (lists s !! clump_info c) ∧
    is_Some (function c);
  wf_kids : ∀ b kids k,
    children_of s b = Some kids → k ∈ kids → b < k < length (objs s)
}.

(** The threshold after [n] raises by the step factor [d]. *)
Definition raised (d : Val) (n : nat) (mn : Val) : Val :=
  Nat.iter n (λ v, val_mul v d) mn.


End MoreVocabulary.

(** ** A one-dimensional dataset to run the code on

    A region is a row of cells holding the field values.  A contour is a
    maximal run of adjacent cells whose value lies between the two
    thresholds; contours are numbered from 1, left to right, and every other
    cell is labelled -1.  The validity test [n] asks for at least [n] cells;
    the registry knows every name and binds the parameters it is given. *)
Module Line.

Fixpoint label_cells (mn mx : Z) (prev_in : bool) (cur : Z) (vs : list Z)
    : list Z :=
  match vs with
  | [] => []
  | v :: vs' =>
    if bool_decide (mn ≤ v ∧ v ≤ mx)%Z then
      let id := if prev_in then cur else (cur + 1)%Z in
      id :: label_cells mn mx true id vs'
    else (-1)%Z :: label_cells mn mx false cur vs'
  end.

Definition contours (r : list Z) (mn mx : Z) : nat * Cids unit unit :=
  let labels := label_cells mn mx false 0 r in
  (Z.to_nat (foldr Z.max 0%Z labels), [(tt, [(tt, labels)])]).

(** The cells of [r] that carry the label [cid]. *)
Definition cut (r : list Z) (cid : Z) (cids : Cids unit unit) : list Z :=
  let labels := concat ((concat (cids.*2)).*2) in
  (filter (λ vl, vl.2 = cid) (zip r labels)).*1.

#[export] Instance collaborators : Collaborators := {|
  Region := list Z;
  Field := unit;
  Val := Z;
  CachedFields := unit;
  Fn := nat;
  Params := list Z;
  Callback := string * list Z;
  GridId := unit;
  Slice := unit;
  Pf := string;
  field_min := λ r _, foldr Z.min (default 0%Z (head r)) r;
  field_max := λ r _, foldr Z.max (default 0%Z (head r)) r;
  ones_size := λ r, length r;
  identify_contours := λ r _ mn mx, contours r mn mx;
  cut_region := cut;
  val_ge := λ a b, bool_decide (b ≤ a)%Z;
  val_mul := Z.mul;
  registry_find := λ name ps, Some (name, ps);
  no_params := [];
  default_function := 1%nat
|}.

#[export] Instance evaluators : Evaluators := {|
  eval_function := λ n s a,
    match objs s !! a with
    | Some c => bool_decide (n ≤ length (data c))
    | None => false
    end;
  item_value := λ cb s a, cb.1;
  data_getitem := λ r k, Raise KeyError
|}.

Definition empty_store : Store := mkStore [] [] 0.

(** A root clump over the row [r], built by [Clump(r, None, field)] with the
    validity test [n]. *)
Definition root_over (r : list Z) (n : nat) : M addr :=
  Clump_init (r : Region) PNone (tt : Field) (tt : CachedFields) (Some n)
             None.

(** The clump at [a]. *)
Definition blank : Clump :=
  @mkClump collaborators (@PNone collaborators) [] tt 0%Z 0%Z Missing 0
           None None None.
Definition clump_at (s : Store) (a : addr) : Clump :=
  default blank (objs s !! a).

(** The store in which [m] ends. *)
Definition run {A} (m : M A) (s : Store) : Store :=
  match m s with
  | Ok (_, s') => s'
  | _ => s
  end.

(** A root over two cells of value 5, and its tree for thresholds from 1 to
    6 with step factor 10. *)
Definition root55 : Store :=
  Eval vm_compute in run (root_over [5; 5]%Z 1) empty_store.
Definition tree55 : Store :=
  Eval vm_compute in run (find_clumps 5 0 1%Z 6%Z 10%Z) root55.

(** A root over three islands above 1 and a higher ridge, valid clumps
    having at least two cells; the store after [find_children] at 1, and the
    tree for thresholds from 1 to 10 with step factor 2. *)
Definition root3 : Store :=
  Eval vm_compute in
    run (root_over [1; 1; 0; 1; 0; 5; 5; 3; 9; 9]%Z 2) empty_store.
Definition split3 : Store :=
  Eval vm_compute in run (find_children 0 1%Z None) root3.
Definition tree3 : Store :=
  Eval vm_compute in run (find_clumps 10 0 1%Z 10%Z 2%Z) root3.
(** [root55] after [_isValid] on the root, and after the construction of a
    second clump that inherits the info items of the root. *)
Definition valid55 : Store := Eval vm_compute in run (_isValid 0) root55.
Definition copy55 : Store :=
  Eval vm_compute in
    run (Clump_init ([5]%Z : Region) (PObj 0) (tt : Field)
                    (tt : CachedFields) None (Some 1)) root55.
End Line.

(** * Facts *)

Section Facts.
Context `{Ev : Evaluators}.

(** ** Running the monad *)

Lemma bind_Ok {A B} (m : M A) (k : A → M B) s r :
  (m ≫= k) s = Ok r ↔ ∃ a s1, m s = Ok (a, s1) ∧ k a s1 = Ok r.
Proof.
  unfold mbind, M_bind. split.
  - destruct (m s) as [[a s1]| |]; [eauto|done..].
  - by intros (a & s1 & -> & ?).
Qed.

Lemma bind_run {A B} (m : M A) (k : A → M B) s a s1 :
  m s = Ok (a, s1) → (m ≫= k) s = k a s1.
Proof. unfold mbind, M_bind. by intros ->. Qed.

Lemma get_obj_run a s c : objs s !! a = Some c → get_obj a s = Ok (c, s).
Proof. unfold get_obj. by intros ->. Qed.

Lemma get_obj_Ok a s c s' :
  get_obj a s = Ok (c, s') ↔ objs s !! a = Some c ∧ s' = s.
Proof.
  unfold get_obj. destruct (objs s !! a) as [c0|]; split.
  - by intros [= -> ->].
  - by intros [[= ->] ->].
  - done.
  - by intros [? _].
Qed.

Lemma upd_obj_run a f s c :
  objs s !! a = Some c →
  upd_obj a f s = Ok (tt, with_objs (<[a := f c]> (objs s)) s).
Proof. unfold upd_obj. by intros ->. Qed.

Lemma upd_obj_Ok a f s u s' :
  upd_obj a f s = Ok (u, s') ↔
  ∃ c, objs s !! a = Some c ∧ s' = with_objs (<[a := f c]> (objs s)) s.
Proof.
  unfold upd_obj. destruct (objs s !! a) as [c0|], u; split.
  - intros [= <-]. by exists c0.
  - by intros (c & [= <-] & ->).
  - done.
  - by intros (c & ? & _).
Qed.

(** ** [find_children] *)

(** A loop whose body keeps the store in the family [St], indexed by the
    items that passed the test [P] so far. *)
Lemma for_each_inv {A} (P : A → Prop) `{∀ x, Decision (P x)}
    (St : list A → Store) (body : A → M unit) :
  (∀ done x,
     body x (St done) = Ok (tt, St (if decide (P x) then done ++ [x] else done))) →
  ∀ cands done,
    for_each cands body (St done) = Ok (tt, St (done ++ filter P cands)).
Proof.
  intros Hbody. induction cands as [|x cands IH]; intros done; simpl.
  - by rewrite app_nil_r.
  - erewrite bind_run by apply Hbody.
    rewrite IH, filter_cons. destruct (decide (P x)); [|done].
    by rewrite <-app_assoc.
Qed.

Lemma Clump_init_inherit d p f cf fn l s xs :
  ones_size d ≠ 0 →
  lists s !! l = Some xs →
  Clump_init d p f cf fn (Some l) s =
  Ok (length (objs s),
      mkStore
        (objs s ++ [mkClump p d f (field_min d f) (field_max d f) (Has cf)
                      (length (lists s))
                      (Some (default default_function fn)) None None])
        (lists s ++ [xs]) (evals s)).
Proof.
  intros Hd Hl.
  unfold Clump_init, field_bounds, deepcopy, get_list, new_list, new_obj.
  rewrite bool_decide_false by done.
  unfold mbind, M_bind, mret, M_ret. rewrite Hl. simpl.
  by destruct fn.
Qed.

Lemma Clump_init_no_cells d p f cf fn ci s :
  ones_size d = 0 → Clump_init d p f cf fn ci s = Raise ValueError.
Proof.
  intros Hd. unfold Clump_init, field_bounds.
  by rewrite bool_decide_true by done.
Qed.

Lemma find_children_run self mn mxo s c cf xs :
  objs s !! self = Some c →
  cached_fields c = Has cf →
  lists s !! clump_info c = Some xs →
  let mx := default (max_val c) mxo in
  find_children self mn mxo s =
  Ok (tt, after_children s self c (identify_contours (data c) (field c) mn mx).2
            cf xs (child_ids (data c) (field c) mn mx)).
Proof.
  intros Hc Hcf Hxs mx. unfold find_children.
  erewrite bind_run by (by apply upd_obj_run).
  assert (Hlt : self < length (objs s)) by (by eapply lookup_lt_Some).
  erewrite bind_run by (apply get_obj_run; simpl; by apply list_lookup_insert_eq).
  simpl.
  replace (match mxo with Some m => m | None => max_val c end) with mx
    by (by destruct mxo).
  destruct (identify_contours (data c) (field c) mn mx) as [nj cids] eqn:Hid.
  unfold child_ids. rewrite Hid. simpl.
  set (St := after_children s self c cids cf xs).
  change (with_objs _ s) with
    (with_objs (<[self:=set_children (Some []) c]> (objs s)) s).
  assert (HSt0 : with_objs (<[self:=set_children (Some []) c]> (objs s)) s = St []).
  { unfold St, after_children, with_objs. simpl.
    by rewrite !app_nil_r. }
  rewrite HSt0.
  refine (for_each_inv (makes_child (data c) cids) St _ _ _ []).
  intros done cid.
  assert (Hself : ∀ k, objs (St k) !! self =
            Some (set_children (Some (seq (length (objs s)) (length k))) c)).
  { intros k. unfold St, after_children. simpl.
    rewrite lookup_app_l by (by rewrite length_insert).
    by apply list_lookup_insert_eq. }
  case_bool_decide as Hm1.
  { rewrite decide_False by (intros [? _]; done). done. }
  erewrite bind_run by (apply get_obj_run, Hself). simpl.
  case_bool_decide as Hsz.
  { rewrite decide_False by (intros [_ ?]; done). done. }
  rewrite decide_True by done.
  rewrite Hcf. unfold mret at 1, M_ret at 1.
  erewrite bind_run by reflexivity.
  erewrite bind_run.
  2:{ apply Clump_init_inherit with (xs := xs); [done|].
      unfold St, after_children; simpl.
      rewrite lookup_app_l by (by eapply lookup_lt_Some). done. }
  erewrite bind_run.
  2:{ apply get_obj_run. simpl. rewrite lookup_app_l.
      - apply Hself.
      - unfold St, after_children; simpl. rewrite length_app, length_insert. lia. }
  simpl. erewrite upd_obj_run.
  2:{ simpl. rewrite lookup_app_l.
      - apply Hself.
      - unfold St, after_children; simpl. rewrite length_app, length_insert. lia. }
  f_equal. f_equal. unfold St, after_children, with_objs; simpl.
  rewrite !length_app, !length_insert, !length_imap, !length_replicate. simpl.
  f_equal.
  - rewrite imap_app. simpl. rewrite Nat.add_0_r.
    rewrite !(assoc_L (++)).
    rewrite insert_app_l by (rewrite length_app, length_insert; lia).
    rewrite insert_app_l by (rewrite length_insert; lia).
    rewrite list_insert_insert_eq. unfold set_children; simpl.
    rewrite Nat.add_1_r, seq_S. done.
  - rewrite Nat.add_1_r, replicate_S_end, (assoc_L (++)). done.
Qed.

Lemma elem_of_np_unique x ff : x ∈ np_unique ff ↔ x ∈ ff.
Proof.
  unfold np_unique. rewrite merge_sort_Permutation, elem_of_elements.
  apply elem_of_list_to_set.
Qed.

Lemma elem_of_sorted x (S : gset Z) : x ∈ sorted S ↔ x ∈ S.
Proof. unfold sorted. by rewrite merge_sort_Permutation, elem_of_elements. Qed.

Lemma StronglySorted_sublist {A} (R : relation A) l1 l2 :
  l1 `sublist_of` l2 → StronglySorted R l2 → StronglySorted R l1.
Proof.
  induction 1 as [|x l1 l2 Hsub IH|x l1 l2 Hsub IH]; intros Hs.
  - constructor.
  - apply StronglySorted_inv in Hs as [Hs Hall]. constructor; [by apply IH|].
    eapply Forall_forall. intros y Hy. eapply (proj1 (Forall_forall _ _) Hall).
    by eapply elem_of_sublist.
  - apply StronglySorted_inv in Hs as [Hs _]. by apply IH.
Qed.

Lemma StronglySorted_le_lt (l : list Z) :
  StronglySorted Z.le l → NoDup l → StronglySorted Z.lt l.
Proof.
  induction 1 as [|x l Hs IH Hall]; intros Hnd; [constructor|].
  apply NoDup_cons in Hnd as [Hx Hnd]. constructor; [by apply IH|].
  apply Forall_forall. intros y Hy.
  assert (x ≠ y) by (intros ->; done).
  pose proof (proj1 (Forall_forall _ _) Hall y Hy). lia.
Qed.

Lemma sorted_ascending (S : gset Z) : StronglySorted Z.lt (sorted S).
Proof.
  apply StronglySorted_le_lt.
  - apply (StronglySorted_merge_sort Z.le).
  - unfold sorted. rewrite merge_sort_Permutation. apply NoDup_elements.
Qed.

Lemma elem_of_unique_contours cids cid :
  cid ∈ unique_contours cids ↔ contour_id_in cids cid.
Proof.
  unfold unique_contours, contour_id_in.
  assert (Hin : ∀ (sls : list (Slice * list Z)) (acc : gset Z),
    cid ∈ foldl (λ acc '(sl, ff), acc ∪ list_to_set (np_unique ff)) acc sls ↔
    cid ∈ acc ∨ ∃ sl ff, (sl, ff) ∈ sls ∧ cid ∈ ff).
  { induction sls as [|[sl ff] sls IH]; intros acc; simpl.
    - split; [by left|]. intros [?|(? & ? & []%elem_of_nil & _)]; done.
    - rewrite IH, elem_of_union, elem_of_list_to_set, elem_of_np_unique.
      split.
      + intros [[?|?]|(sl' & ff' & ? & ?)]; [by left|right..].
        * exists sl, ff. split; [left|done].
        * exists sl', ff'. split; [by right|done].
      + intros [?|(sl' & ff' & [[= -> ->]|?]%elem_of_cons & ?)].
        * by left; left.
        * by left; right.
        * right. by exists sl', ff'. }
  assert (Hout : ∀ (l : Cids GridId Slice) (acc : gset Z),
    cid ∈ foldl (λ acc sl_list,
                   foldl (λ acc '(sl, ff), acc ∪ list_to_set (np_unique ff))
                         acc sl_list) acc (l.*2) ↔
    cid ∈ acc ∨ ∃ g sls sl ff, (g, sls) ∈ l ∧ (sl, ff) ∈ sls ∧ cid ∈ ff).
  { induction l as [|[g sls] l IH]; intros acc; simpl.
    - split; [by left|]. intros [?|(? & ? & ? & ? & []%elem_of_nil & _)]; done.
    - rewrite IH, Hin. split.
      + intros [[?|(sl & ff & ? & ?)]|(g' & sls' & sl & ff & ? & ? & ?)].
        * by left.
        * right. exists g, sls, sl, ff. split; [left|done].
        * right. exists g', sls', sl, ff. split; [by right|done].
      + intros [?|(g' & sls' & sl & ff & [[= -> ->]|?]%elem_of_cons & ? & ?)].
        * by left; left.
        * left; right. by exists sl, ff.
        * right. by exists g', sls', sl, ff. }
  rewrite Hout. split; [|by right]. intros [?|?]; [set_solver|done].
Qed.

Lemma elem_of_child_ids r f mn mx cid :
  cid ∈ child_ids r f mn mx ↔
  contour_id_in (identify_contours r f mn mx).2 cid ∧ cid ≠ (-1)%Z ∧
  ones_size (cut_region r cid (identify_contours r f mn mx).2) ≠ 0.
Proof.
  unfold child_ids. simpl.
  rewrite list_elem_of_filter, elem_of_sorted, elem_of_unique_contours.
  unfold makes_child. tauto.
Qed.

Lemma child_ids_ascending r f mn mx :
  StronglySorted Z.lt (child_ids r f mn mx).
Proof.
  eapply StronglySorted_sublist; [apply sublist_filter|apply sorted_ascending].
Qed.

(** The objects of [after_children]. *)
Lemma after_children_self s self c cids cf xs ids :
  self < length (objs s) →
  objs (after_children s self c cids cf xs ids) !! self =
  Some (set_children (Some (seq (length (objs s)) (length ids))) c).
Proof.
  intros. unfold after_children; simpl.
  rewrite lookup_app_l by (by rewrite length_insert).
  by apply list_lookup_insert_eq.
Qed.

Lemma after_children_old s self c cids cf xs ids b :
  b ≠ self → b < length (objs s) →
  objs (after_children s self c cids cf xs ids) !! b = objs s !! b.
Proof.
  intros. unfold after_children; simpl.
  rewrite lookup_app_l by (by rewrite length_insert).
  by apply list_lookup_insert_ne.
Qed.

Lemma after_children_new s self c cids cf xs ids i :
  objs (after_children s self c cids cf xs ids) !! (length (objs s) + i) =
  child_of c self cids cf (length (lists s) + i) <$> ids !! i.
Proof.
  unfold after_children; simpl.
  rewrite lookup_app_r by (rewrite length_insert; lia).
  rewrite length_insert, list_lookup_imap.
  replace (length (objs s) + i - length (objs s)) with i by lia. done.
Qed.

Lemma after_children_length s self c cids cf xs ids :
  length (objs (after_children s self c cids cf xs ids)) =
  length (objs s) + length ids.
Proof.
  unfold after_children; simpl.
  by rewrite length_app, length_insert, length_imap.
Qed.

(** C3.  On a constructed node [find_children] returns, and leaves in
    [children] one new clump for each contour id that occurs in the
    extractor's [cids], is not the sentinel -1 and cuts out a region with at
    least one point; the ids are taken in strictly ascending order, the
    children stand in that order, and each child's region is the cut for its
    id, hence not empty. *)
Theorem find_children_one_child_per_contour self mn mxo s c :
  objs s !! self = Some c →
  constructed s self →
  let cids := (identify_contours (data c) (field c) mn
                 (default (max_val c) mxo)).2 in
  ∃ s' kids ids,
    find_children self mn mxo s = Ok (tt, s') ∧
    children_of s' self = Some kids ∧
    StronglySorted Z.lt ids ∧
    (∀ cid, cid ∈ ids ↔
       contour_id_in cids cid ∧ cid ≠ (-1)%Z ∧
       ones_size (cut_region (data c) cid cids) ≠ 0) ∧
    Forall2 (λ k cid, region_of s' k = Some (cut_region (data c) cid cids))
            kids ids ∧
    NoDup kids ∧
    (∀ k, k ∈ kids → objs s !! k = None ∧
          ∃ r, region_of s' k = Some r ∧ ones_size r ≠ 0).
Proof.
  intros Hc (c' & cf & xs & Hc' & Hcf & Hxs) cids.
  rewrite Hc in Hc'. injection Hc' as <-.
  set (mx := default (max_val c) mxo) in *.
  set (ids := child_ids (data c) (field c) mn mx).
  assert (Hlt : self < length (objs s)) by (by eapply lookup_lt_Some).
  eexists _, (seq (length (objs s)) (length ids)), ids.
  split; [by eapply find_children_run|].
  assert (Hreg : ∀ i cid, ids !! i = Some cid →
    region_of (after_children s self c cids cf xs ids) (length (objs s) + i)
    = Some (cut_region (data c) cid cids)).
  { intros i cid Hi. unfold region_of.
    by rewrite after_children_new, Hi. }
  split_and!.
  - unfold children_of. by rewrite after_children_self.
  - apply child_ids_ascending.
  - intros cid. apply elem_of_child_ids.
  - apply Forall2_same_length_lookup_2; [by rewrite length_seq|].
    intros i k cid [-> Hi]%lookup_seq Hcid. by apply Hreg.
  - apply NoDup_seq.
  - intros k Hk. apply elem_of_seq in Hk as [Hk1 Hk2]. split.
    { apply lookup_ge_None. lia. }
    destruct (lookup_lt_is_Some_2 ids (k - length (objs s))) as [cid Hcid];
      [lia|].
    exists (cut_region (data c) cid cids). split.
    + replace k with (length (objs s) + (k - length (objs s))) by lia.
      by apply Hreg.
    + apply list_elem_of_lookup_2, elem_of_child_ids in Hcid. tauto.
Qed.

(** ** What [find_clumps] touches *)

Lemma constructed_preserved s s' b c c' :
  constructed s b →
  objs s !! b = Some c → objs s' !! b = Some c' →
  cached_fields c' = cached_fields c → clump_info c' = clump_info c →
  lists s `prefix_of` lists s' →
  constructed s' b.
Proof.
  intros (c0 & cf & xs & Hc0 & Hcf & Hxs) Hc Hc' Hcf' Hci Hpre.
  rewrite Hc in Hc0. injection Hc0 as <-.
  exists c', cf, xs. split_and!; [done|congruence|].
  rewrite Hci. by eapply prefix_lookup_Some.
Qed.

Lemma tidy_empty_region s : tidy (length (objs s)) (length (objs s)) s.
Proof.
  split.
  - intros b ?. lia.
  - intros b kids k Hb Hk. unfold children_of in Hk.
    rewrite (lookup_ge_None_2 (objs s) b) in Hk by done. done.
  - intros b Hb k Hk. unfold children_of in Hk.
    rewrite (lookup_ge_None_2 (objs s) b) in Hk by done. done.
Qed.

Lemma effect_refl s a : constructed s a → effect s s a.
Proof.
  intros (c & cf & xs & Hc & _). split; try done.
  - exists c, (children c). split; [done|]. by destruct c.
  - apply tidy_empty_region.
  - by left.
Qed.

Lemma children_of_Some s b c : objs s !! b = Some c → children_of s b = children c.
Proof. unfold children_of. by intros ->. Qed.

Lemma children_of_eq s s' b :
  objs s' !! b = objs s !! b → children_of s' b = children_of s b.
Proof. unfold children_of. by intros ->. Qed.

Lemma children_of_lt s b kids : children_of s b = Some kids → b < length (objs s).
Proof.
  unfold children_of. destruct (objs s !! b) eqn:E; [|done].
  intros _. by eapply lookup_lt_Some.
Qed.

(** A call on [k0], an unset kid of the region or a node below it, keeps
    the region tidy. *)
Lemma effect_keeps_tidy s sa k0 lo hi :
  effect s sa k0 → k0 < hi → hi ≤ length (objs s) →
  tidy lo hi s → (lo ≤ k0 → unset s k0) → tidy lo hi sa.
Proof.
  intros [Hlen Hold (c & ch & Hc & Hc') Hlists Hnew Hkids Hlone] Hk0 Hhi
         [Tc Tk Tl] Hunset.
  assert (Hch : ∀ b, b < length (objs s) → b ≠ k0 →
            children_of sa b = children_of s b).
  { intros b ? ?. by apply children_of_eq, Hold. }
  split.
  - intros b [Hb1 Hb2]. destruct (decide (b < length (objs s))) as [Hb|Hb].
    + destruct (decide (b = k0)) as [->|Hne].
      * eapply (constructed_preserved s sa k0 c); [apply Tc; lia|done..].
      * destruct (lookup_lt_is_Some_2 (objs s) b Hb) as [cb Hcb].
        eapply (constructed_preserved s sa b cb);
          [apply Tc; lia|done|by rewrite Hold|done..].
    + apply Hnew. lia.
  - intros b kids k Hb Hbk Hin.
    destruct (decide (b < length (objs s))) as [Hlt|Hge].
    + destruct (decide (b = k0)) as [->|Hne].
      * destruct Hkids as [Heq|Hfresh].
        -- destruct (Hunset Hb). congruence.
        -- specialize (Hfresh _ _ Hbk Hin). lia.
      * rewrite Hch in Hbk by done. eauto.
    + assert (length (objs s) ≤ k); [|lia].
      eapply (tidy_kids _ _ _ Hnew b kids k); [lia|done..].
  - intros b Hb k Hbk.
    destruct (decide (b < length (objs s))) as [Hlt|Hge].
    + destruct (decide (b = k0)) as [->|Hne].
      * apply Hlone; [|done]. destruct (Hunset Hb). intros k' Hk'. congruence.
      * rewrite Hch in Hbk by done.
        destruct (Tl b Hb k Hbk) as [Hklt Hkun].
        assert (hi ≤ k) by (eapply Tk; [done..|left]).
        split; [lia|]. rewrite Hch by lia. done.
    + eapply (tidy_lone _ _ _ Hnew b); [lia|done].
Qed.

(** [_isValid] *)
Lemma _isValid_Ok k s v s' :
  _isValid k s = Ok (v, s') →
  ∃ c, objs s !! k = Some c ∧
       ((function_value c = Some v ∧ s' = s) ∨
        (function_value c = None ∧ ∃ f, function c = Some f ∧
         v = eval_function f s k ∧
         s' = mkStore (<[k := set_function_value (Some v) c]> (objs s))
                      (lists s) (S (evals s)))).
Proof.
  unfold _isValid. intros (c & s1 & [Hc ->]%get_obj_Ok & H)%bind_Ok.
  exists c. split; [done|]. destruct (function_value c) as [v'|] eqn:Hfv.
  - left. by injection H as -> ->.
  - right. split; [done|]. destruct (function c) as [f|] eqn:Hf; [|done].
    exists f. split; [done|].
    apply bind_Ok in H as (f' & s2 & [= <- <-] & H).
    apply bind_Ok in H as (v' & s3 & [= <- <-] & H).
    apply bind_Ok in H as ([] & s4 & Hupd & [= <- <-]).
    apply upd_obj_Ok in Hupd as (c' & Hc'' & ->). simpl in Hc''.
    rewrite Hc in Hc''. injection Hc'' as <-. done.
Qed.

Lemma _isValid_effect k s v s' :
  _isValid k s = Ok (v, s') →
  length (objs s') = length (objs s) ∧ lists s' = lists s ∧
  (∀ b, b ≠ k → objs s' !! b = objs s !! b) ∧
  ∃ c, objs s !! k = Some c ∧
       objs s' !! k = Some (set_function_value (Some v) c).
Proof.
  intros H. apply _isValid_Ok in H
    as (c & Hc & [[Hfv ->]|(Hfv & f & Hf & -> & ->)]).
  - split_and!; try done. exists c. split; [done|].
    rewrite Hc. f_equal. destruct c; simpl in *; by subst.
  - simpl. split_and!; try done.
    + by rewrite length_insert.
    + intros b Hb. by apply list_lookup_insert_ne.
    + exists c. split; [done|]. apply list_lookup_insert_eq.
      by eapply lookup_lt_Some.
Qed.

Lemma validity_keeps_tidy s s' k v lo hi :
  _isValid k s = Ok (v, s') → tidy lo hi s → tidy lo hi s'.
Proof.
  intros H [Tc Tk Tl].
  apply _isValid_effect in H as (Hlen & Hlists & Hne & c & Hc & Hc').
  assert (Hch : ∀ b, children_of s' b = children_of s b).
  { intros b. destruct (decide (b = k)) as [->|?].
    - unfold children_of. by rewrite Hc, Hc'.
    - by apply children_of_eq, Hne. }
  split.
  - intros b Hb. rewrite Hlen in Hb.
    destruct (lookup_lt_is_Some_2 (objs s) b) as [cb Hcb]; [lia|].
    destruct (decide (b = k)) as [->|?].
    + eapply (constructed_preserved s s' k c);
        [by apply Tc|done|done|done|done|by rewrite Hlists].
    + eapply (constructed_preserved s s' b cb);
        [by apply Tc|done|by rewrite Hne|done|done|by rewrite Hlists].
  - intros b kids k'. rewrite Hch. apply Tk.
  - intros b Hb k'. rewrite Hch. intros Hk'.
    destruct (Tl b Hb k' Hk') as [? ?]. split; [lia|by rewrite Hch].
Qed.

Lemma investigate_effect (recurse : addr → M unit) lo hi :
  (∀ k s s', constructed s k → recurse k s = Ok (tt, s') → effect s s' k) →
  ∀ rest these s these' s',
    investigate recurse rest these s = Ok (these', s') →
    NoDup rest → (∀ k, k ∈ rest → lo ≤ k < hi ∧ unset s k) →
    hi ≤ length (objs s) → tidy lo hi s →
    length (objs s) ≤ length (objs s') ∧
    (∀ b, b < length (objs s) → b ∉ rest → objs s' !! b = objs s !! b) ∧
    (∀ k c, k ∈ rest → objs s !! k = Some c →
       ∃ ch fv, objs s' !! k = Some (set_function_value fv (set_children ch c))) ∧
    lists s `prefix_of` lists s' ∧
    tidy lo hi s' ∧
    (∀ k, k ∈ rest →
       ∃ sk sk', recurse k sk = Ok (tt, sk') ∧
                 children_of s' k = children_of sk' k) ∧
    ∃ kept, these' = these ++ kept ∧ kept `sublist_of` rest ∧
            ∀ k, k ∈ rest →
                 (k ∈ kept → retained s' k) ∧ (k ∉ kept → dropped s' k).
Proof.
  intros Hrec. induction rest as [|k0 rest IH];
    intros these s these' s' Hrun Hnd Hrest Hhi Htidy.
  { injection Hrun as <- <-. split_and!; try done.
    - intros k c []%elem_of_nil.
    - intros k []%elem_of_nil.
    - exists []. rewrite app_nil_r. split_and!; [done|done|].
      intros k []%elem_of_nil. }
  apply NoDup_cons in Hnd as [Hk0 Hnd].
  destruct (Hrest k0) as [Hk0r Hk0u]; [left|].
  assert (Hk0c : constructed s k0).
  { apply Htidy. destruct Hk0u. lia. }
  simpl in Hrun.
  apply bind_Ok in Hrun as ([] & sa & Hreca & Hrun).
  pose proof Hreca as Hreca'.
  apply Hrec in Hreca as Heff; [|done].
  apply bind_Ok in Hrun as (c & ? & [Hc ->]%get_obj_Ok & Hrun).
  assert (Htidya : tidy lo hi sa).
  { eapply effect_keeps_tidy; [done|lia|done|done|done]. }
  destruct Heff as [Hlen Hold (c0 & ch & Hc0 & Hc0') Hlists _ _ _].
  rewrite Hc in Hc0'. injection Hc0' as ->.
  (* the state [sb] in which the loop goes on, and the decision on [k0] *)
  assert (∃ sb fv (keep : bool),
    investigate recurse rest (if keep then these ++ [k0] else these) sb
      = Ok (these', s') ∧
    length (objs sb) = length (objs sa) ∧ lists sb = lists sa ∧
    (∀ b, b ≠ k0 → objs sb !! b = objs sa !! b) ∧
    objs sb !! k0 = Some (set_function_value fv (set_children ch c0)) ∧
    tidy lo hi sb ∧
    (if keep then retained sb k0 else dropped sb k0))
    as (sb & fv & keep & Hrun' & Hlenb & Hlistsb & Hneb & Hk0b & Htidyb & Hdec).
  { destruct (has_children (set_children ch c0)) eqn:Hhas.
    - exists sa, (function_value c0), true. split_and!; try done.
      exists (set_children ch c0). split; [done|by left].
    - apply bind_Ok in Hrun as (v & sb & Hval & Hrun).
      pose proof (validity_keeps_tidy _ _ _ _ _ _ Hval Htidya) as Htidyb.
      apply _isValid_effect in Hval as (Hlenb & Hlistsb & Hneb & c' & Hc' & Hcb).
      rewrite Hc in Hc'. injection Hc' as <-.
      exists sb, (Some v), v. split_and!; try done.
      + by destruct v.
      + destruct v.
        * eexists. split; [done|]. right. split; [done|done].
        * eexists. split; [done|]. split; [done|done]. }
  clear Hrun.
  apply IH in Hrun'
    as (Hlen' & Hold' & Hsame' & Hlists' & Htidy' & Hrecd' & kept & -> & Hsub
        & Hkept);
    [|done| |lia|done].
  2:{ intros k Hk. destruct (Hrest k) as [? [? Hun]]; [by right|].
      assert (k ≠ k0) by (intros ->; done).
      split; [done|]. split; [lia|].
      rewrite (children_of_eq sa sb), (children_of_eq s sa); [done|..].
      - apply Hold; [lia|done].
      - by apply Hneb. }
  split_and!.
  - lia.
  - intros b Hb Hnin. apply not_elem_of_cons in Hnin as [Hne Hnin].
    rewrite Hold', Hneb, Hold; [done..|lia|done].
  - intros k ck [->|Hk]%elem_of_cons Hck.
    + rewrite Hc0 in Hck. injection Hck as <-.
      exists ch, fv. rewrite Hold'; [done|lia|done].
    + assert (k ≠ k0) by (intros ->; done).
      destruct (Hrest k) as [? [? ?]]; [by right|].
      apply (Hsame' k ck Hk). rewrite Hneb, Hold; [done|lia|done..].
  - etrans; [done|]. by rewrite Hlistsb in Hlists'.
  - done.
  - intros k [->|Hk]%elem_of_cons; [|by apply Hrecd'].
    exists s, sa. split; [done|].
    rewrite (children_of_eq sb s') by (apply Hold'; [lia|done]).
    unfold children_of. rewrite Hk0b, Hc. done.
  - assert (Hk0' : objs s' !! k0 = objs sb !! k0) by (apply Hold'; [lia|done]).
    assert (Hk0kept : k0 ∉ kept).
    { intros Hin. apply Hk0. by eapply elem_of_sublist. }
    destruct keep.
    + exists (k0 :: kept). split_and!.
      * by rewrite <-app_assoc.
      * by constructor.
      * intros k [->|Hk]%elem_of_cons.
        -- split; [|intros []; left].
           intros _. destruct Hdec as (cc & Hcc & Hd). exists cc.
           by rewrite Hk0'.
        -- destruct (Hkept k Hk) as [H1 H2]. split.
           ++ intros [->|?]%elem_of_cons; [done|by apply H1].
           ++ intros Hn. apply H2. intros ?. apply Hn. by right.
    + exists kept. split_and!.
      * done.
      * by constructor.
      * intros k [->|Hk]%elem_of_cons.
        -- split; [done|]. intros _.
           destruct Hdec as (cc & Hcc & Hd). exists cc. by rewrite Hk0'.
        -- by apply Hkept.
Qed.

(** Rebinding [children] of a node below the region. *)
Lemma set_children_keeps_tidy s a c ch lo hi :
  objs s !! a = Some c → a < lo → lo ≤ hi → tidy lo hi s →
  tidy lo hi (with_objs (<[a := set_children ch c]> (objs s)) s).
Proof.
  intros Hc Ha Hlohi [Tc Tk Tl].
  set (s' := with_objs _ s).
  assert (Hne : ∀ b, b ≠ a → objs s' !! b = objs s !! b).
  { intros b ?. by apply list_lookup_insert_ne. }
  assert (Hlen : length (objs s') = length (objs s)) by apply length_insert.
  split.
  - intros b Hb. rewrite Hlen in Hb.
    destruct (lookup_lt_is_Some_2 (objs s) b) as [cb Hcb]; [lia|].
    eapply (constructed_preserved s s' b cb);
      [by apply Tc|done|rewrite Hne by lia; done|done..].
  - intros b kids k Hb. rewrite (children_of_eq s s') by (apply Hne; lia).
    eauto.
  - intros b Hb k. rewrite (children_of_eq s s') by (apply Hne; lia).
    intros Hbk. destruct (Tl b Hb k Hbk) as [? ?].
    assert (hi ≤ k) by (eapply Tk; [done..|left]).
    split; [lia|]. rewrite (children_of_eq s s') by (apply Hne; lia). done.
Qed.

Lemma tidy_weaken lo hi hi' s : hi' ≤ hi → tidy lo hi s → tidy lo hi' s.
Proof.
  intros ? [Tc Tk Tl]. split; [done| |done].
  intros b kids k Hb Hbk Hin. specialize (Tk b kids k Hb Hbk Hin). lia.
Qed.

(** [find_children] on a constructed node. *)
Lemma find_children_effect a mn mxo s s1 :
  constructed s a → find_children a mn mxo s = Ok (tt, s1) →
  ∃ n, children_of s1 a = Some (seq (length (objs s)) n) ∧
       length (objs s1) = length (objs s) + n ∧
       (∀ b, b < length (objs s) → b ≠ a → objs s1 !! b = objs s !! b) ∧
       (∃ c, objs s !! a = Some c ∧
             objs s1 !! a = Some (set_children (Some (seq (length (objs s)) n)) c)) ∧
       lists s `prefix_of` lists s1 ∧
       tidy (length (objs s)) (length (objs s) + n) s1 ∧
       (∀ k, length (objs s) ≤ k < length (objs s) + n → unset s1 k).
Proof.
  intros (c & cf & xs & Hc & Hcf & Hxs) Hrun.
  rewrite (find_children_run a mn mxo s c cf xs Hc Hcf Hxs) in Hrun.
  injection Hrun as <-.
  set (cids := (identify_contours _ _ _ _).2).
  set (ids := child_ids _ _ _ _).
  assert (Hlt : a < length (objs s)) by (by eapply lookup_lt_Some).
  assert (Hnew : ∀ k, length (objs s) ≤ k < length (objs s) + length ids →
    ∃ cid, objs (after_children s a c cids cf xs ids) !! k =
      Some (child_of c a cids cf (length (lists s) + (k - length (objs s))) cid)).
  { intros k Hk.
    destruct (lookup_lt_is_Some_2 ids (k - length (objs s))) as [cid Hcid];
      [lia|].
    exists cid. replace k with (length (objs s) + (k - length (objs s))) at 1 by lia.
    by rewrite after_children_new, Hcid. }
  assert (Hnone : ∀ b, length (objs s) ≤ b →
    children_of (after_children s a c cids cf xs ids) b = None).
  { intros b Hb. destruct (decide (b < length (objs s) + length ids)).
    - destruct (Hnew b) as [cid Hb']; [lia|]. unfold children_of. by rewrite Hb'.
    - unfold children_of. rewrite lookup_ge_None_2; [done|].
      rewrite after_children_length. lia. }
  exists (length ids). split_and!.
  - unfold children_of. by rewrite after_children_self.
  - apply after_children_length.
  - intros b ? ?. by apply after_children_old.
  - exists c. split; [done|]. by apply after_children_self.
  - by apply prefix_app_r.
  - split.
    + intros b [Hb1 Hb2]. rewrite after_children_length in Hb2.
      destruct (Hnew b) as [cid Hb']; [lia|].
      eexists _, cf, xs. split_and!; [done|done|]. simpl.
      rewrite lookup_app_r by lia. apply lookup_replicate_2. lia.
    + intros b kids k Hb. by rewrite Hnone.
    + intros b Hb k. by rewrite Hnone.
  - intros k Hk. split; [rewrite after_children_length; lia|].
    apply Hnone. lia.
Qed.

(** Putting an [effect] together from the final [children] of the node. *)
Lemma effect_intro s s' a c ch :
  objs s !! a = Some c → objs s' !! a = Some (set_children ch c) →
  length (objs s) ≤ length (objs s') →
  (∀ b, b < length (objs s) → b ≠ a → objs s' !! b = objs s !! b) →
  lists s `prefix_of` lists s' →
  tidy (length (objs s)) (length (objs s)) s' →
  (∀ kids k, ch = Some kids → k ∈ kids → length (objs s) ≤ k) →
  (∀ k, ch = Some [k] → unset s' k) →
  effect s s' a ∧ lone_ok s' a ∧
  ∀ kids k, children_of s' a = Some kids → k ∈ kids → length (objs s) ≤ k.
Proof.
  intros Hc Hc' Hlen Hold Hlists Htidy Hfresh Hlone.
  assert (Hch : children_of s' a = ch).
  { unfold children_of. by rewrite Hc'. }
  assert (lone_ok s' a) by (intros k; rewrite Hch; apply Hlone).
  split_and!; [split|..]; try done.
  - by exists c, ch.
  - right. by rewrite Hch.
  - by rewrite Hch.
Qed.

Lemma set_children_twice k1 k2 (c : Clump) :
  set_children k2 (set_children k1 c) = set_children k2 c.
Proof. done. Qed.

(** The end of [find_clumps]. *)
Lemma link_survivors_Ok a these s2 s' :
  link_survivors a these s2 = Ok (tt, s') →
  ∃ c2 ch,
    objs s2 !! a = Some c2 ∧
    s' = with_objs (<[a := set_children ch c2]> (objs s2)) s2 ∧
    (1 < length these → ch = Some these) ∧
    (∀ x, these = [x] → ch = children_of s2 x) ∧
    (these = [] → ch = Some []).
Proof.
  unfold link_survivors. intros Hrun.
  case_bool_decide as Hm1.
  { apply upd_obj_Ok in Hrun as (c2 & Hc2 & ->). exists c2, (Some these).
    split_and!; try done.
    - intros x ->. simpl in Hm1. lia.
    - intros ->. simpl in Hm1. lia. }
  case_bool_decide as Hm0.
  - destruct these as [|x [|? ?]]; try done. simpl in Hrun.
    apply bind_Ok in Hrun as (sc & ? & [Hsc ->]%get_obj_Ok & Hrun).
    apply upd_obj_Ok in Hrun as (c2 & Hc2 & ->). exists c2, (children sc).
    split_and!; try done.
    intros ? [= <-]. unfold children_of. by rewrite Hsc.
  - apply upd_obj_Ok in Hrun as (c2 & Hc2 & ->). exists c2, (Some []).
    split_and!; try done.
    intros x ->. done.
Qed.

(** The branch of [find_clumps] with several children: the loop, then
    [link_survivors].  [L] is where the children start and [n] their
    number. *)
Lemma find_clumps_branch (recurse : addr → M unit) a L n c s1 these s2 s' :
  (∀ k s s', constructed s k → recurse k s = Ok (tt, s') → effect s s' k) →
  a < L → length (objs s1) = L + n →
  objs s1 !! a = Some (set_children (Some (seq L n)) c) →
  tidy L (L + n) s1 → (∀ k, L ≤ k < L + n → unset s1 k) →
  investigate recurse (seq L n) [] s1 = Ok (these, s2) →
  link_survivors a these s2 = Ok (tt, s') →
  ∃ ch,
    these `sublist_of` seq L n ∧
    (∀ k, k ∈ seq L n →
       (k ∈ these → retained s' k) ∧ (k ∉ these → dropped s' k)) ∧
    (∀ k, k ∈ seq L n →
       ∃ sk sk', recurse k sk = Ok (tt, sk') ∧
                 children_of s' k = children_of sk' k) ∧
    (∀ k ck, k ∈ seq L n → objs s1 !! k = Some ck →
       ∃ kch fv,
         objs s' !! k = Some (set_function_value fv (set_children kch ck))) ∧
    length (objs s1) ≤ length (objs s') ∧
    (∀ b, b < L → b ≠ a → objs s' !! b = objs s1 !! b) ∧
    (∀ b, b ≠ a → objs s' !! b = objs s2 !! b) ∧
    lists s1 `prefix_of` lists s' ∧
    tidy L (L + n) s' ∧
    objs s' !! a = Some (set_children ch c) ∧
    (1 < length these → ch = Some these) ∧
    (∀ x, these = [x] → ch = children_of s2 x) ∧
    (these = [] → ch = Some []).
Proof.
  intros Hrec Ha Hlen1 Hc1 Htidy1 Hun1 Hloop Hlink.
  eapply (investigate_effect _ L (L + n)) in Hloop
    as (Hlen2 & Hold2 & Hsame2 & Hlists2 & Htidy2 & Hrecd & kept & Hkept & Hsub
        & Hdec);
    [|done|apply NoDup_seq| |lia|done].
  2:{ intros k Hk%elem_of_seq. split; [lia|]. apply Hun1. lia. }
  simpl in Hkept. subst these.
  assert (Hc2 : objs s2 !! a = Some (set_children (Some (seq L n)) c)).
  { rewrite Hold2; [done|lia|]. intros Hin%elem_of_seq. lia. }
  apply link_survivors_Ok in Hlink as (c2 & ch & Hc2' & -> & Hch1 & Hch2 & Hch3).
  rewrite Hc2 in Hc2'. injection Hc2' as <-.
  rewrite set_children_twice.
  assert (Hne : ∀ b, b ≠ a →
    objs (with_objs (<[a:=set_children ch c]> (objs s2)) s2) !! b
    = objs s2 !! b).
  { intros b Hb. simpl. by apply list_lookup_insert_ne. }
  assert (Hkne : ∀ k, k ∈ seq L n → k ≠ a).
  { intros k Hk%elem_of_seq. lia. }
  exists ch. split_and!; try done.
  - intros k Hk. destruct (Hdec k Hk) as [H1 H2].
    unfold retained, dropped. rewrite Hne by auto. done.
  - intros k Hk. destruct (Hrecd k Hk) as (sk & sk' & ? & Heq).
    exists sk, sk'. split; [done|]. rewrite <-Heq.
    apply children_of_eq, Hne. auto.
  - intros k ck Hk Hck. rewrite Hne by auto. by eapply Hsame2.
  - simpl. by rewrite length_insert.
  - intros b Hb Hba. rewrite Hne by done. apply Hold2; [lia|].
    intros Hin%elem_of_seq. lia.
  - rewrite <-(set_children_twice (Some (seq L n))).
    apply set_children_keeps_tidy; [done|lia|lia|done].
  - simpl. apply list_lookup_insert_eq. lia.
Qed.

(** The main invariant of [find_clumps]. *)
Lemma find_clumps_effect fuel :
  ∀ a mn mx d s s',
    constructed s a → find_clumps fuel a mn mx d s = Ok (tt, s') →
    effect s s' a ∧
    (val_ge mn mx = false →
     lone_ok s' a ∧
     ∀ kids k, children_of s' a = Some kids → k ∈ kids → length (objs s) ≤ k).
Proof.
  induction fuel as [|fuel IH]; intros a mn mx d s s' Hcon Hrun; [done|].
  simpl in Hrun. destruct (val_ge mn mx) eqn:Hge.
  { injection Hrun as <-. split; [by apply effect_refl|done]. }
  apply bind_Ok in Hrun as ([] & s1 & Hfc & Hrun).
  destruct (find_children_effect _ _ _ _ _ Hcon Hfc)
    as (n & Hkids & Hlen1 & Hold1 & (c & Hc & Hc1) & Hlists1 & Htidy1 & Hun1).
  assert (Ha : a < length (objs s)) by (by eapply lookup_lt_Some).
  apply bind_Ok in Hrun as (c1 & ? & [Hc1' ->]%get_obj_Ok & Hrun).
  rewrite Hc1 in Hc1'. injection Hc1' as <-. simpl in Hrun.
  rewrite length_seq in Hrun.
  assert (Hcon1 : constructed s1 a).
  { by eapply (constructed_preserved s s1 a c). }
  assert (Hlone1 : lone_ok s1 a).
  { intros k. rewrite Hkids. intros [= Hk]. destruct n as [|[|n]]; try done.
    injection Hk as <-. apply Hun1. lia. }
  cut (effect s s' a ∧ lone_ok s' a ∧
       ∀ kids k, children_of s' a = Some kids → k ∈ kids → length (objs s) ≤ k).
  { intros (? & ? & ?). done. }
  (* a call on [a] that starts from [s1] *)
  assert (Hvia : ∀ s2, effect s1 s2 a →
    effect s s2 a ∧ lone_ok s2 a ∧
    ∀ kids k, children_of s2 a = Some kids → k ∈ kids → length (objs s) ≤ k).
  { intros s2 Heff.
    assert (Htidy2 : tidy (length (objs s)) (length (objs s) + n) s2).
    { eapply effect_keeps_tidy; [done|lia|lia|done|lia]. }
    destruct Heff as [Hlen2 Hold2 (c1 & ch & Hc1' & Hc2) Hlists2 _ Hk2 Hl2].
    rewrite Hc1 in Hc1'. injection Hc1' as <-.
    rewrite set_children_twice in Hc2.
    eapply effect_intro; try done.
    - lia.
    - intros b Hb Hne. rewrite Hold2, Hold1; [done..|lia|done].
    - by etrans.
    - eapply tidy_weaken; [|done]. lia.
    - intros kids k -> Hin.
      assert (Hch : children_of s2 a = Some kids).
      { unfold children_of. by rewrite Hc2. }
      destruct Hk2 as [Heq|Hfresh].
      + rewrite Hch, Hkids in Heq. injection Heq as ->.
        apply elem_of_seq in Hin. lia.
      + specialize (Hfresh _ _ Hch Hin). lia.
    - intros k ->. apply Hl2; [done|].
      unfold children_of. by rewrite Hc2. }
  case_bool_decide as Hn1.
  { apply Hvia. by eapply IH. }
  case_bool_decide as Hn0.
  2:{ injection Hrun as <-. apply Hvia. by apply effect_refl. }
  clear Hvia.
  apply bind_Ok in Hrun as (these & s2 & Hloop & Hrun).
  destruct (find_clumps_branch
              (λ child, find_clumps fuel child (val_mul mn d) mx d)
              a (length (objs s)) n c s1 these s2 s')
    as (ch & Hsub & _ & _ & _ & Hlen' & Hold' & Hne' & Hlists' & Htidy' & Hc'
        & Hch1 & Hch2 & Hch3); try done.
  { intros k s0 s0' Hk Hr. by eapply IH. }
  assert (Hin : ∀ k, k ∈ these →
    length (objs s) ≤ k < length (objs s) + n).
  { intros k Hk. eapply elem_of_sublist in Hk; [|done].
    apply elem_of_seq in Hk. lia. }
  assert (Hcases : length these > 1 ∨ (∃ x, these = [x]) ∨ these = []).
  { destruct these as [|x [|y l]]; simpl; eauto. left. lia. }
  eapply effect_intro; try done.
  - lia.
  - intros b Hb Hba. rewrite Hold', Hold1; [done..|lia|done].
  - by etrans.
  - eapply tidy_weaken; [|done]. lia.
  - intros kids k -> Hk. destruct Hcases as [Hm|[[x ->]| ->]].
    + rewrite Hch1 in Hc' by lia. specialize (Hch1 Hm). simplify_eq.
      apply Hin in Hk. lia.
    + specialize (Hch2 x eq_refl).
      assert (length (objs s) + n ≤ k); [|lia].
      destruct (Hin x) as [? ?]; [left|].
      eapply (tidy_kids _ _ _ Htidy' x kids k); [lia| |done].
      rewrite Hch2. apply children_of_eq, Hne'. lia.
    + specialize (Hch3 eq_refl). simplify_eq. by apply elem_of_nil in Hk.
  - intros k ->. destruct Hcases as [Hm|[[x ->]| ->]].
    + specialize (Hch1 Hm). simplify_eq. simpl in Hm. lia.
    + specialize (Hch2 x eq_refl).
      destruct (Hin x) as [? ?]; [left|].
      eapply (tidy_lone _ _ _ Htidy' x); [lia|].
      rewrite Hch2. apply children_of_eq, Hne'. lia.
    + specialize (Hch3 eq_refl). done.
Qed.

(** ** The finished tree *)





(** ** The base case, the cache, the copies *)


(** C5.  The first call of [_isValid] on a node, the one that finds no
    cached value, returns: it runs [eval] on the validity test of the node
    exactly once, returns the boolean that [eval] gives and stores it in
    [function_value], changing nothing else.  A call that returns [v] has
    run [eval] at most once: either it found [v] cached and left the store
    as it was, or it was a first call.  From then on, in any store where the
    cache of the node is what that call left, whatever else has changed,
    [_isValid] returns [v] again and changes nothing: [eval] is not run. *)
Theorem _isValid_evaluates_once a s :
  (∀ c f, objs s !! a = Some c →
          function_value c = None → function c = Some f →
     _isValid a s
     = Ok (eval_function f s a,
           mkStore (<[a := set_function_value (Some (eval_function f s a)) c]>
                      (objs s))
                   (lists s) (S (evals s)))) ∧
  ∀ v s1, _isValid a s = Ok (v, s1) →
    (∃ c, objs s !! a = Some c ∧
          ((function_value c = Some v ∧ s1 = s) ∨
           (function_value c = None ∧
            ∃ f, function c = Some f ∧ v = eval_function f s a ∧
                 evals s1 = S (evals s) ∧ lists s1 = lists s ∧
                 objs s1 = <[a := set_function_value (Some v) c]> (objs s)))) ∧
    evals s1 ≤ S (evals s) ∧
    validity_of s1 a = Some (Some v) ∧
    ∀ s2, validity_of s2 a = validity_of s1 a → _isValid a s2 = Ok (v, s2).
Proof.
  split.
  { intros c f Hc Hfv Hf. unfold _isValid.
    erewrite bind_run by (by apply get_obj_run). rewrite Hfv, Hf.
    erewrite bind_run by reflexivity.
    erewrite bind_run by reflexivity.
    erewrite bind_run by (by apply upd_obj_run). done. }
  intros v s1 Hrun.
  assert (Hv : validity_of s1 a = Some (Some v)).
  { apply _isValid_effect in Hrun as (_ & _ & _ & c & Hc & Hc').
    unfold validity_of. by rewrite Hc'. }
  split_and!; [| |done|].
  - apply _isValid_Ok in Hrun
      as (c & Hc & [[Hfv ->]|(Hfv & f & Hf & -> & ->)]).
    + exists c. split; [done|]. by left.
    + exists c. split; [done|]. right. split; [done|]. by exists f.
  - apply _isValid_Ok in Hrun
      as (c & Hc & [[Hfv ->]|(Hfv & f & Hf & -> & ->)]); simpl; lia.
  - intros s2. rewrite Hv. unfold validity_of.
    destruct (objs s2 !! a) as [c2|] eqn:Hc2; [|done].
    intros [= Hfv]. unfold _isValid.
    erewrite bind_run by (by apply get_obj_run). by rewrite Hfv.
Qed.

(** C10.  A clump constructed with an inherited list of info items holds a
    list object of its own with the same items; whatever is then stored in
    the inherited list object, the clump's list is as it was. *)
Theorem Clump_init_copies_clump_info d p f cf fn l xs s child s' :
  lists s !! l = Some xs →
  Clump_init d p f cf fn (Some l) s = Ok (child, s') →
  ∃ c, objs s' !! child = Some c ∧
       clump_info c ≠ l ∧
       lists s' !! clump_info c = Some xs ∧
       lists s' !! l = Some xs ∧
       (∀ x s'', list_append l x s' = Ok (tt, s'') →
                 lists s'' !! l = Some (xs ++ [x]) ∧
                 lists s'' !! clump_info c = Some xs) ∧
       (∀ ys, <[l := ys]> (lists s') !! clump_info c = Some xs).
Proof.
  intros Hl Hrun.
  destruct (decide (ones_size d = 0)) as [Hd|Hd].
  { by rewrite Clump_init_no_cells in Hrun. }
  rewrite (Clump_init_inherit _ _ _ _ _ _ _ _ Hd Hl) in Hrun.
  injection Hrun as <- <-.
  assert (Hlt : l < length (lists s)) by (by eapply lookup_lt_Some).
  eexists. split; [simpl; apply list_lookup_middle; done|]. simpl.
  assert (Hown : (lists s ++ [xs]) !! length (lists s) = Some xs).
  { by apply list_lookup_middle. }
  assert (Hpar : (lists s ++ [xs]) !! l = Some xs).
  { by rewrite lookup_app_l. }
  split_and!; try done.
  - lia.
  - intros x s'' Happ. unfold list_append in Happ. simpl in Happ.
    rewrite Hpar in Happ. injection Happ as <-. simpl. split.
    + apply list_lookup_insert_eq. rewrite length_app. lia.
    + rewrite list_lookup_insert_ne by lia. done.
  - intros ys. rewrite list_lookup_insert_ne by lia. done.
Qed.

(** C7.  On a constructed node two calls of [find_children] with the same
    thresholds both return; the second makes as many children as the first,
    for the same contour ids, each with the content of its counterpart, and
    none of the first call's children is among them. *)
Theorem find_children_twice a mn mxo s c :
  constructed s a → objs s !! a = Some c →
  let cids := (identify_contours (data c) (field c) mn
                 (default (max_val c) mxo)).2 in
  ∃ s1 s2 kids1 kids2 ids,
    find_children a mn mxo s = Ok (tt, s1) ∧
    find_children a mn mxo s1 = Ok (tt, s2) ∧
    children_of s1 a = Some kids1 ∧ children_of s2 a = Some kids2 ∧
    length kids1 = length kids2 ∧
    Forall2 (λ k cid, region_of s1 k = Some (cut_region (data c) cid cids))
            kids1 ids ∧
    Forall2 (λ k cid, region_of s2 k = Some (cut_region (data c) cid cids))
            kids2 ids ∧
    Forall2 (same_content s1 s2) kids1 kids2 ∧
    (∀ k, k ∈ kids2 → k ∉ kids1).
Proof.
  intros (c0 & cf & xs & Hc0 & Hcf & Hxs) Hc cids.
  rewrite Hc in Hc0. injection Hc0 as <-.
  set (mx := default (max_val c) mxo) in *.
  set (ids := child_ids (data c) (field c) mn mx).
  set (L := length (objs s)). set (n := length ids).
  set (s1 := after_children s a c cids cf xs ids).
  set (c' := set_children (Some (seq L n)) c).
  set (s2 := after_children s1 a c' cids cf xs ids).
  assert (Hlt : a < L) by (by eapply lookup_lt_Some).
  assert (Hc1 : objs s1 !! a = Some c') by (by apply after_children_self).
  assert (Hxs1 : lists s1 !! clump_info c' = Some xs).
  { simpl. rewrite lookup_app_l; [done|]. by eapply lookup_lt_Some. }
  assert (HL1 : length (objs s1) = L + n) by apply after_children_length.
  assert (Hrun1 : find_children a mn mxo s = Ok (tt, s1)).
  { by apply find_children_run. }
  assert (Hrun2 : find_children a mn mxo s1 = Ok (tt, s2)).
  { by rewrite (find_children_run a mn mxo s1 c' cf xs Hc1 Hcf Hxs1). }
  assert (Hk1 : ∀ i cid, ids !! i = Some cid →
    objs s1 !! (L + i) = Some (child_of c a cids cf (length (lists s) + i) cid)).
  { intros i cid Hi. unfold s1, L. by rewrite after_children_new, Hi. }
  assert (Hk2 : ∀ i cid, ids !! i = Some cid →
    objs s2 !! (L + n + i)
    = Some (child_of c' a cids cf (length (lists s1) + i) cid)).
  { intros i cid Hi. unfold s2. rewrite <-HL1.
    by rewrite after_children_new, Hi. }
  exists s1, s2, (seq L n), (seq (L + n) n), ids.
  split_and!; try done.
  - unfold children_of. by rewrite Hc1.
  - unfold children_of, s2. rewrite after_children_self by lia.
    rewrite HL1. done.
  - by rewrite !length_seq.
  - apply Forall2_same_length_lookup_2; [by rewrite length_seq|].
    intros i k cid [-> Hi]%lookup_seq Hcid.
    unfold region_of. by rewrite (Hk1 i cid).
  - apply Forall2_same_length_lookup_2; [by rewrite length_seq|].
    intros i k cid [-> Hi]%lookup_seq Hcid.
    unfold region_of. by rewrite (Hk2 i cid).
  - apply Forall2_same_length_lookup_2; [by rewrite !length_seq|].
    intros i k1 k2 [-> Hi]%lookup_seq [-> _]%lookup_seq.
    destruct (lookup_lt_is_Some_2 ids i Hi) as [cid Hcid].
    eexists _, _. split_and!; [by apply Hk1|by apply Hk2|done|..]; simpl.
    + rewrite lookup_app_r by lia. eexists. apply lookup_replicate_2. lia.
    + rewrite (lookup_app_r (lists s)) by lia.
      rewrite lookup_app_r by (rewrite length_app, length_replicate; lia).
      rewrite !lookup_replicate_2; [done|..];
        rewrite ?length_app, ?length_replicate; lia.
  - intros k [? ?]%elem_of_seq [? ?]%elem_of_seq. lia.
Qed.

(** ** Reports *)

(** C9, as the code has it.  On a node whose [children] is unset both
    writers return without an error and write the node as a leaf: its
    heading, its info items, an empty line.  They do not tell unset from
    empty. *)
Theorem writers_take_unset_as_leaf fuel s a c items level fh :
  objs s !! a = Some c → children c = None →
  lists s !! clump_info c = Some items →
  let start := match fh with Handle f => f | Path name => open_w name end in
  let finish := λ f, match fh with Handle _ => f | Path _ => fclose f end in
  let info := λ f,
    foldl (λ f item, fwrite (tabs level +:+ item_value item s a +:+ nl) f)
          f items in
  write_clump_index (S fuel) s a level fh =
    Ok (finish (fwrite nl (info
          (fwrite ("Clump at level " +:+ pretty level +:+ ":" +:+ nl)
                  (foldl (λ f q, fwrite tab f) start (seq 0 level)))))) ∧
  write_clumps (S fuel) s a level fh =
    Ok (finish (fwrite nl (info
          (fwrite (tabs level +:+ "Clump:" +:+ nl) start)))).
Proof.
  intros Hc Hch Hitems start finish info.
  unfold write_clump_index, write_clumps, write_info.
  destruct fh as [name|f]; simpl; rewrite Hc; simpl; rewrite Hitems, Hch;
    done.
Qed.

(** ** Unpickling *)

(** C4.  Every call of [_reconstruct_clump] raises [NameError]: the first
    thing it does with its arguments is to call [iterable], which the
    module never binds.  No child is relinked and nothing is returned. *)
Theorem _reconstruct_clump_raises_NameError
    parent field mi ma function_value children data clump_info function s :
  _reconstruct_clump module_iterable parent field mi ma function_value
                     children data clump_info function s
  = Raise NameError.
Proof. done. Qed.

(** The loop [for child in children: child.parent = obj]. *)
Lemma relink_run (obj : addr) kids :
  ∀ s, (∀ k, k ∈ kids → k < length (objs s)) →
  ∃ s', for_each kids (λ child, upd_obj child (set_parent (PObj obj))) s
          = Ok (tt, s') ∧
        length (objs s') = length (objs s) ∧ lists s' = lists s ∧
        (∀ k c0, k ∈ kids → objs s !! k = Some c0 →
                 objs s' !! k = Some (set_parent (PObj obj) c0)) ∧
        (∀ b, b ∉ kids → objs s' !! b = objs s !! b).
Proof.
  induction kids as [|k0 kids IH]; intros s Hvalid.
  { exists s. split_and!; try done. intros k c0 []%elem_of_nil. }
  destruct (lookup_lt_is_Some_2 (objs s) k0) as [c0 Hc0]; [apply Hvalid; left|].
  set (s0 := with_objs (<[k0 := set_parent (PObj obj) c0]> (objs s)) s).
  destruct (IH s0) as (s' & Hrun & Hlen & Hlists & Hin & Hout).
  { intros k Hk. simpl. rewrite length_insert. apply Hvalid. by right. }
  exists s'. split_and!.
  - simpl. erewrite bind_run by (by apply upd_obj_run). done.
  - rewrite Hlen. simpl. by rewrite length_insert.
  - by rewrite Hlists.
  - intros k c Hk Hc.
    assert (Hlt : k0 < length (objs s)) by (by eapply lookup_lt_Some).
    destruct (decide (k = k0)) as [->|Hne].
    + rewrite Hc0 in Hc. injection Hc as <-.
      assert (Hk0 : objs s0 !! k0 = Some (set_parent (PObj obj) c0)).
      { simpl. by apply list_lookup_insert_eq. }
      destruct (decide (k0 ∈ kids)) as [Hin0|Hnin0].
      * by rewrite (Hin k0 _ Hin0 Hk0).
      * by rewrite Hout.
    + apply Hin.
      * apply elem_of_cons in Hk as [?|?]; done.
      * simpl. by rewrite list_lookup_insert_ne.
  - intros b [Hb1 Hb2]%not_elem_of_cons. rewrite Hout by done.
    simpl. by rewrite list_lookup_insert_ne.
Qed.

(** What [_reconstruct_clump] does for a root once [iterable] is bound to a
    function that says no to [None]: the new object is returned with the
    parameter file, it holds the region, and every child points to it. *)
Lemma _reconstruct_clump_when_bound it fld mi ma fv kids (pd : Pf * Region)
    ci fn s :
  it PNone = false → (∀ k, k ∈ kids → k < length (objs s)) →
  ∃ s', _reconstruct_clump (Some it) PNone fld mi ma fv (Some kids) pd ci fn s
        = Ok (PPair pd.1 (length (objs s)), s') ∧
        region_of s' (length (objs s)) = Some pd.2 ∧
        children_of s' (length (objs s)) = Some kids ∧
        (∀ k c0, k ∈ kids → objs s !! k = Some c0 →
                 objs s' !! k
                 = Some (set_parent (PObj (length (objs s))) c0)).
Proof.
  intros Hit Hvalid. unfold _reconstruct_clump. rewrite Hit.
  set (o := mkClump PNone pd.2 fld mi ma Missing ci fn fv (Some kids)).
  set (s0 := with_objs (objs s ++ [o]) s).
  assert (Ho0 : objs s0 !! length (objs s) = Some o).
  { simpl. by apply list_lookup_middle. }
  destruct (relink_run (length (objs s)) kids s0)
    as (s1 & Hrun & Hlen & Hlists & Hin & Hout).
  { intros k Hk. simpl. rewrite length_app. specialize (Hvalid k Hk). lia. }
  assert (Ho1 : objs s1 !! length (objs s) = Some o).
  { rewrite Hout; [done|]. intros Hk%Hvalid. lia. }
  eexists. split_and!.
  - erewrite bind_run by reflexivity.
    erewrite bind_run by reflexivity.
    erewrite bind_run by exact Hrun.
    erewrite bind_run by (by apply upd_obj_run).
    unfold get_parent. erewrite bind_run.
    2:{ erewrite bind_run; [reflexivity|].
        apply get_obj_run. simpl. apply list_lookup_insert_eq.
        rewrite Hlen. simpl. rewrite length_app. simpl. lia. }
    done.
  - unfold region_of. simpl. rewrite list_lookup_insert_eq; [done|].
    rewrite Hlen. simpl. rewrite length_app. simpl. lia.
  - unfold children_of. simpl. rewrite list_lookup_insert_eq; [done|].
    rewrite Hlen. simpl. rewrite length_app. simpl. lia.
  - intros k c0 Hk Hc0. simpl.
    rewrite list_lookup_insert_ne by (specialize (Hvalid k Hk); lia).
    apply Hin; [done|]. simpl. rewrite lookup_app_l; [done|]. by apply Hvalid.
Qed.

(** ** Info items *)

Lemma list_append_run l x s xs :
  lists s !! l = Some xs →
  list_append l x s = Ok (tt, with_lists (<[l := xs ++ [x]]> (lists s)) s).
Proof. unfold list_append. by intros ->. Qed.

(** [add_info_item] on a node with one childless child: the node gets the
    item that the registry makes of the name with the parameters, the child
    the item that the registry makes of the name alone. *)
Lemma add_info_item_reaches_child a k c ck xs ys name params cb cb0 s :
  objs s !! a = Some c → children c = Some [k] →
  objs s !! k = Some ck → children ck = None →
  clump_info c ≠ clump_info ck →
  lists s !! clump_info c = Some xs → lists s !! clump_info ck = Some ys →
  registry_find name params = Some cb →
  registry_find name no_params = Some cb0 →
  ∃ s', add_info_item 2 a name params s = Ok (tt, s') ∧
        objs s' = objs s ∧
        lists s' !! clump_info c = Some (xs ++ [cb]) ∧
        lists s' !! clump_info ck = Some (ys ++ [cb0]).
Proof.
  intros Hc Hch Hck Hchk Hne Hxs Hys Hcb Hcb0.
  assert (Hlc : clump_info c < length (lists s)) by (by eapply lookup_lt_Some).
  assert (Hlk : clump_info ck < length (lists s)) by (by eapply lookup_lt_Some).
  eexists. split_and!.
  - simpl. rewrite Hcb, Hcb0.
    erewrite bind_run by reflexivity.
    erewrite bind_run by (by apply get_obj_run).
    erewrite bind_run by (by apply list_append_run).
    erewrite bind_run by (by apply get_obj_run).
    rewrite Hch. simpl.
    erewrite bind_run.
    2:{ erewrite bind_run by reflexivity.
        erewrite bind_run by (by apply get_obj_run).
        erewrite bind_run.
        2:{ apply list_append_run. simpl.
            rewrite list_lookup_insert_ne by done. done. }
        erewrite bind_run by (by apply get_obj_run).
        rewrite Hchk. reflexivity. }
    reflexivity.
  - done.
  - simpl. rewrite list_lookup_insert_ne by done.
    by apply list_lookup_insert_eq.
  - simpl. apply list_lookup_insert_eq. by rewrite length_insert.
Qed.

End Facts.

(** * Runs on the one-dimensional dataset *)

Module Runs.
Import Line.

Lemma root55_constructed : constructed root55 0.
Proof. by eexists _, _, _. Qed.
Lemma root3_constructed : constructed root3 0.
Proof. by eexists _, _, _. Qed.




Lemma find_children_one_child_per_contour_witness :
  ∃ s' kids, find_children 0 1%Z None root3 = Ok (tt, s') ∧
             children_of s' 0 = Some kids ∧ NoDup kids.
Proof.
  destruct (find_children_one_child_per_contour (Co := collaborators)
              0 1%Z None root3
              (clump_at root3 0))
    as (s' & kids & ids & ? & ? & _ & _ & _ & ? & _).
  - reflexivity.
  - exact root3_constructed.
  - by exists s', kids.
Defined.

Lemma _isValid_evaluates_once_witness :
  _isValid 0 root55 = Ok (true, valid55) ∧
  evals valid55 = S (evals root55) ∧
  ∀ s2, validity_of s2 0 = validity_of valid55 0 →
        _isValid 0 s2 = Ok (true, s2).
Proof.
  destruct (_isValid_evaluates_once (Ev := evaluators) 0 root55)
    as [Hfirst Hlater].
  assert (Hrun : _isValid 0 root55 = Ok (true, valid55)).
  { apply (Hfirst (clump_at root55 0) 1); reflexivity. }
  split; [exact Hrun|]. split; [reflexivity|].
  apply (Hlater true valid55 Hrun).
Defined.

Lemma find_children_twice_witness :
  ∃ s1 s2 kids1 kids2,
    find_children 0 1%Z None root3 = Ok (tt, s1) ∧
    find_children 0 1%Z None s1 = Ok (tt, s2) ∧
    children_of s1 0 = Some kids1 ∧ children_of s2 0 = Some kids2 ∧
    length kids1 = length kids2.
Proof.
  destruct (find_children_twice (Co := collaborators) 0 1%Z None root3
              (clump_at root3 0))
    as (s1 & s2 & kids1 & kids2 & ids & ? & ? & ? & ? & ? & _).
  - exact root3_constructed.
  - reflexivity.
  - by exists s1, s2, kids1, kids2.
Defined.



Lemma writers_take_unset_as_leaf_witness :
  ∃ f g, write_clump_index 1 root55 0 0 (Path "clumps.txt") = Ok f ∧
         write_clumps 1 root55 0 0 (Path "clumps.txt") = Ok g.
Proof.
  eexists _, _.
  apply (writers_take_unset_as_leaf (Ev := evaluators) 0 root55 0
           (clump_at root55 0)
           (default [] (lists root55 !! 1)) 0 (Path "clumps.txt"));
    reflexivity.
Defined.

(** C9 as stated fails.  The root of [root55] was never decomposed, its
    [children] is unset; both writers, given a path, return a file. *)
Lemma writers_do_not_raise_on_unset :
  children_of root55 0 = None ∧
  (∀ e, write_clump_index 1 root55 0 0 (Path "clumps.txt") ≠ Raise e) ∧
  (∀ e, write_clumps 1 root55 0 0 (Path "clumps.txt") ≠ Raise e).
Proof. split_and!; [reflexivity|intros e; vm_compute; discriminate..]. Qed.

Lemma Clump_init_copies_clump_info_witness :
  ∃ c, objs copy55 !! 1 = Some c ∧ clump_info c ≠ 1 ∧
       ∀ ys, <[1 := ys]> (lists copy55) !! clump_info c
             = lists root55 !! 1.
Proof.
  destruct (Clump_init_copies_clump_info (Co := collaborators)
              ([5]%Z : @Region collaborators) (PObj 0) tt tt
              None 1 (default [] (lists root55 !! 1)) root55 1 copy55)
    as (c & ? & ? & _ & _ & _ & ?).
  - reflexivity.
  - vm_compute. reflexivity.
  - by exists c.
Defined.

(** C6.  On [tree55], a root with one child, [add_info_item] with the
    parameter 10 gives the root the item bound to 10 and the child the item
    bound to no parameter; the child's list holds no item bound to 10. *)
Theorem add_info_item_drops_params_for_children :
  ∃ s' xs ys,
    add_info_item 2 0 "distance_to_main_clump" [10%Z] tree55 = Ok (tt, s') ∧
    lists s' !! 1 = Some xs ∧ lists s' !! 2 = Some ys ∧
    last xs = Some ("distance_to_main_clump", [10%Z]) ∧
    last ys = Some ("distance_to_main_clump", []) ∧
    ("distance_to_main_clump", [10%Z]) ∉ ys.
Proof.
  eexists _, _, _. split_and!; [vm_compute; reflexivity|reflexivity..|].
  intros Hin. repeat (apply elem_of_cons in Hin as [Hin|Hin]; [done|]).
  by apply elem_of_nil in Hin.
Qed.
End Runs.

(** * More facts about the module *)

Section MoreFacts.
Context `{Ev : Evaluators}.

(** ** The writers and their file *)

Lemma write_lines_run s a level items f :
  foldl (λ f item, fwrite (tabs level +:+ item_value item s a +:+ nl) f)
        f items
  = mkFile (written f ++ info_lines s a level items) (closed f).
Proof.
  unfold info_lines. revert f.
  induction items as [|item items IH]; intros f; simpl.
  - rewrite app_nil_r. by destruct f.
  - rewrite IH. simpl. by rewrite <-app_assoc.
Qed.

(** [write_info] appends one line for each info item of the clump, in the
    order of the list, and neither drops what the file holds nor closes
    it. *)
Theorem write_info_appends_lines s a c items level f :
  objs s !! a = Some c → lists s !! clump_info c = Some items →
  write_info s a level f
  = Ok (mkFile (written f ++ info_lines s a level items) (closed f)).
Proof.
  intros Hc Hitems. unfold write_info. rewrite Hc, Hitems. f_equal.
  apply write_lines_run.
Qed.

Lemma write_info_Ok s a level f f' :
  write_info s a level f = Ok f' →
  closed f' = closed f ∧ written f `prefix_of` written f'.
Proof.
  unfold write_info. destruct (objs s !! a) as [c|] eqn:Hc; [|done].
  destruct (lists s !! clump_info c) as [items|] eqn:Hi; [|done].
  rewrite write_lines_run. intros [= <-]. simpl.
  split; [done|]. by apply prefix_app_r.
Qed.

Lemma write_each_Ok (write : addr → File → result File) kids :
  (∀ k f f', write k f = Ok f' →
             closed f' = closed f ∧ written f `prefix_of` written f') →
  ∀ f f', write_each write kids f = Ok f' →
          closed f' = closed f ∧ written f `prefix_of` written f'.
Proof.
  intros Hw. induction kids as [|k kids IH]; intros f f' Hrun; simpl in Hrun.
  - by injection Hrun as <-.
  - destruct (write k f) as [f1| |] eqn:Hk; try done. simpl in Hrun.
    apply Hw in Hk as [? ?]. apply IH in Hrun as [? ?].
    split; [congruence|by etrans].
Qed.

Lemma fwrite_prefix x f : written f `prefix_of` written (fwrite x f).
Proof. simpl. by apply prefix_app_r. Qed.

Lemma indent_Ok {A} (l : list A) f :
  closed (foldl (λ f q, fwrite tab f) f l) = closed f ∧
  written f `prefix_of` written (foldl (λ f q, fwrite tab f) f l).
Proof.
  revert f. induction l as [|q l IHl]; intros f; simpl; [done|].
  destruct (IHl (fwrite tab f)) as [? ?]. split; [done|].
  etrans; [apply fwrite_prefix|done].
Qed.

(** Given an open file, [write_clump_index] and [write_clumps] only append
    to it and leave it open or closed as it was. *)
Theorem writers_append_to_open_file fuel s a level f f' :
  write_clump_index fuel s a level (Handle f) = Ok f' ∨
  write_clumps fuel s a level (Handle f) = Ok f' →
  closed f' = closed f ∧ written f `prefix_of` written f'.
Proof.
  revert a level f f'. induction fuel as [|fuel IH]; intros a level f f' Hrun.
  { by destruct Hrun. }
  destruct Hrun as [Hrun|Hrun]; simpl in Hrun.
  - set (f0 := fwrite _ (foldl _ f _)) in Hrun.
    assert (Hf0 : closed f0 = closed f ∧ written f `prefix_of` written f0).
    { unfold f0. destruct (indent_Ok (seq 0 level) f) as [? ?].
      split; [done|]. etrans; [done|apply fwrite_prefix]. }
    destruct Hf0 as [Hc0 Hp0].
    destruct (write_info s a level f0) as [f1| |] eqn:H1; try done.
    apply write_info_Ok in H1 as [Hc1 Hp1]. simpl in Hrun.
    destruct (objs s !! a) as [c|]; [|done]. simpl in Hrun.
    destruct (children c) as [[|k kids]|]; cbv beta match in Hrun.
    + injection Hrun as <-. simpl. split; [congruence|].
      etrans; [done|]. etrans; [done|]. by apply prefix_app_r.
    + destruct (write_each _ (k :: kids) (fwrite nl f1)) as [f2| |] eqn:H2;
        try done.
      injection Hrun as <-.
      apply write_each_Ok in H2 as [Hc2 Hp2].
      * split; [simpl in *; congruence|].
        etrans; [done|]. etrans; [done|]. etrans; [apply fwrite_prefix|done].
      * intros k' g g' Hk'. apply (IH k' (level + 1) g g'). by left.
    + injection Hrun as <-. simpl. split; [congruence|].
      etrans; [done|]. etrans; [done|]. by apply prefix_app_r.
  - destruct (objs s !! a) as [c|]; [|done]. simpl in Hrun.
    destruct (children c) as [[|k kids]|]; cbv beta match in Hrun.
    + destruct (write_info s a level _) as [f1| |] eqn:H1; try done.
      apply write_info_Ok in H1 as [Hc1 Hp1]. injection Hrun as <-.
      simpl in *. split; [done|]. etrans; [|by apply prefix_app_r].
      etrans; [|done]. by apply prefix_app_r.
    + unfold mbind, result_bind in Hrun.
      destruct (write_each _ (k :: kids) f) as [f2| |] eqn:H2; try done.
      injection Hrun as <-. apply write_each_Ok in H2; [done|].
      intros k' g g' Hk'. apply (IH k' 0 g g'). by right.
    + destruct (write_info s a level _) as [f1| |] eqn:H1; try done.
      apply write_info_Ok in H1 as [Hc1 Hp1]. injection Hrun as <-.
      simpl in *. split; [done|]. etrans; [|by apply prefix_app_r].
      etrans; [|done]. by apply prefix_app_r.
Qed.

(** Given a path, both writers open a file, write to it what they would
    append to an empty open file, and close it. *)
Theorem writers_close_the_file_they_open fuel s a level name :
  write_clump_index fuel s a level (Path name)
  = closing (write_clump_index fuel s a level (Handle (open_w name))) ∧
  write_clumps fuel s a level (Path name)
  = closing (write_clumps fuel s a level (Handle (open_w name))) ∧
  ∀ f', write_clump_index fuel s a level (Path name) = Ok f' ∨
        write_clumps fuel s a level (Path name) = Ok f' →
        closed f' = true.
Proof.
  assert (H1 : write_clump_index fuel s a level (Path name)
    = closing (write_clump_index fuel s a level (Handle (open_w name)))).
  { destruct fuel as [|fuel]; [done|]. unfold closing. simpl.
    destruct (write_info s a level _) as [f1| |]; try done. simpl.
    destruct (objs s !! a) as [c|]; [|done]. simpl.
    destruct (match children c with Some ((_ :: _) as kids) => _ | _ => _ end)
      as [f2| |]; done. }
  assert (H2 : write_clumps fuel s a level (Path name)
    = closing (write_clumps fuel s a level (Handle (open_w name)))).
  { destruct fuel as [|fuel]; [done|]. unfold closing. simpl.
    destruct (objs s !! a) as [c|]; [|done]. simpl.
    destruct (match children c with Some (_ :: _) => Ok _ | _ => _ end)
      as [f1| |]; try done. simpl.
    destruct (match children c with Some ((_ :: _) as kids) => _ | _ => _ end)
      as [f2| |]; done. }
  split_and!; [done..|].
  intros f'. rewrite H1, H2. unfold closing.
  intros [Hrun|Hrun].
  - destruct (write_clump_index fuel s a level (Handle (open_w name)))
      as [g| |]; [|done..]. by injection Hrun as <-.
  - destruct (write_clumps fuel s a level (Handle (open_w name)))
      as [g| |]; [|done..]. by injection Hrun as <-.
Qed.

(** ** The lowest clumps *)

Lemma result_bind_assoc {A B C} (r : result A) (f : A → result B)
    (g : B → result C) :
  (r ≫= f) ≫= g = r ≫= (λ a, f a ≫= g).
Proof. by destruct r. Qed.

Lemma collect_each_extends (F : addr → list addr → result (list addr)) :
  (∀ k l, F k l = F k [] ≫= λ lv, Ok (l ++ lv)) →
  ∀ kids l acc,
    collect_each F kids (l ++ acc)
    = collect_each F kids acc ≫= λ r, Ok (l ++ r).
Proof.
  intros HF. induction kids as [|k kids IH]; intros l acc; simpl; [done|].
  rewrite (HF k (l ++ acc)), (HF k acc).
  destruct (F k []) as [lv| |]; simpl; [|done..].
  by rewrite <-app_assoc, IH.
Qed.

Lemma get_lowest_clumps_acc fuel s a l :
  get_lowest_clumps fuel s a (Some l)
  = leaves ← get_lowest_clumps fuel s a None; Ok (l ++ leaves).
Proof.
  revert a l. induction fuel as [|fuel IH]; intros a l; [done|].
  assert (HF : ∀ k l,
    get_lowest_clumps fuel s k (Some l)
    = get_lowest_clumps fuel s k (Some []) ≫= λ lv, Ok (l ++ lv)).
  { intros k l'. rewrite (IH k l'), (IH k []).
    by destruct (get_lowest_clumps fuel s k None). }
  simpl. destruct (objs s !! a) as [c|]; [|done]. simpl.
  destruct (children c) as [[|k kids]|]; [done| |done].
  rewrite <-(app_nil_r l) at 1.
  rewrite (collect_each_extends
             (λ child l, get_lowest_clumps fuel s child (Some l)) HF).
  by destruct (collect_each _ _ _).
Qed.

(** [get_lowest_clumps] extends the list it is given: what was in it stays
    in front, and what is added is what a call without a list returns. *)
Theorem get_lowest_clumps_extends_the_list fuel s a l :
  get_lowest_clumps fuel s a (Some l)
  = leaves ← get_lowest_clumps fuel s a None; Ok (l ++ leaves).
Proof. apply get_lowest_clumps_acc. Qed.

Lemma get_lowest_clumps_Some fuel s a l r :
  get_lowest_clumps fuel s a (Some l) = Ok r →
  ∃ leaves, get_lowest_clumps fuel s a None = Ok leaves ∧ r = l ++ leaves.
Proof.
  rewrite get_lowest_clumps_acc.
  destruct (get_lowest_clumps fuel s a None) as [lv| |]; [|done..].
  intros [= <-]. eauto.
Qed.

Lemma collect_each_Ok (F : addr → list addr → result (list addr))
    (P : addr → addr → Prop) kids :
  (∀ k l r, k ∈ kids → F k l = Ok r → ∃ lv, r = l ++ lv ∧ ∀ b, b ∈ lv ↔ P k b) →
  ∀ acc r, collect_each F kids acc = Ok r →
    ∃ lv, r = acc ++ lv ∧ ∀ b, b ∈ lv ↔ ∃ k, k ∈ kids ∧ P k b.
Proof.
  induction kids as [|k kids IH]; intros HF acc r Hrun; simpl in Hrun.
  - injection Hrun as <-. exists []. rewrite app_nil_r. split; [done|].
    intros b. split; [by intros ?%elem_of_nil|].
    by intros (k & ?%elem_of_nil & _).
  - destruct (F k acc) as [r1| |] eqn:Hk; try done. simpl in Hrun.
    apply HF in Hk as (lv1 & -> & H1); [|left].
    apply IH in Hrun as (lv2 & -> & H2).
    2:{ intros k' l' r' Hk'. apply HF. by right. }
    exists (lv1 ++ lv2). rewrite app_assoc. split; [done|].
    intros b. rewrite elem_of_app, H1, H2. split.
    + intros [?|(k' & ? & ?)].
      * exists k. split; [left|done].
      * exists k'. split; [by right|done].
    + intros (k' & [->|?]%elem_of_cons & ?); [by left|]. right. eauto.
Qed.

(** What [get_lowest_clumps] returns are the childless clumps of the tree:
    a clump is in the list exactly when it is the clump or one of its
    descendants and has no children. *)
Theorem get_lowest_clumps_are_the_childless fuel s a leaves :
  get_lowest_clumps fuel s a None = Ok leaves →
  ∀ b, b ∈ leaves ↔ reach s a b ∧ childless s b.
Proof.
  revert a leaves. induction fuel as [|fuel IH]; intros a leaves Hrun; [done|].
  simpl in Hrun. destruct (objs s !! a) as [c|] eqn:Hc; [|done].
  simpl in Hrun.
  assert (Hch : children_of s a = children c) by (by apply children_of_Some).
  assert (Hleaf : has_children c = false → ∀ b,
    b ∈ [a] ↔ reach s a b ∧ childless s b).
  { intros Hhas b. rewrite list_elem_of_singleton. split.
    - intros ->. split; [constructor|]. by exists c.
    - intros [Hreach _]. inversion Hreach as [|? kids k ? Hkids Hk _]; [done|].
      subst. rewrite Hch in Hkids. unfold has_children in Hhas.
      rewrite Hkids in Hhas. destruct kids; [|done]. by apply elem_of_nil in Hk. }
  destruct (children c) as [[|k kids]|] eqn:Hkids.
  - injection Hrun as <-. by apply Hleaf; unfold has_children; rewrite Hkids.
  - unfold mbind, result_bind in Hrun.
    destruct (collect_each _ (k :: kids) []) as [r| |] eqn:Hloop; try done.
    injection Hrun as <-.
    apply (collect_each_Ok _ (λ k b, reach s k b ∧ childless s b)) in Hloop
      as (lv & -> & Hlv).
    2:{ intros k' l r' _ (lv & Hk' & ->)%get_lowest_clumps_Some.
        exists lv. split; [done|]. by apply IH. }
    simpl. intros b. rewrite Hlv. split.
    + intros (k' & Hk' & Hreach & Hb). split; [|done].
      by eapply reach_step.
    + intros [Hreach Hb].
      inversion Hreach as [|? kids' k' ? Hkids' Hk' Hreach']; subst.
      * destruct Hb as (c' & Hc' & Hhas). rewrite Hc in Hc'.
        injection Hc' as <-. unfold has_children in Hhas.
        by rewrite Hkids in Hhas.
      * rewrite Hch in Hkids'. injection Hkids' as <-. eauto.
  - injection Hrun as <-. by apply Hleaf; unfold has_children; rewrite Hkids.
Qed.

Lemma write_each_app (w : addr → File → result File) l1 l2 f :
  write_each w (l1 ++ l2) f = write_each w l1 f ≫= write_each w l2.
Proof.
  revert f. induction l1 as [|x l1 IH]; intros f; simpl; [done|].
  destruct (w x f) as [f1| |]; simpl; [|done..]. apply IH.
Qed.

Lemma write_each_as_blocks (W B : addr → File → result File)
    (F : addr → list addr → result (list addr)) kids :
  (∀ k l r, F k l = Ok r →
     ∃ lv, r = l ++ lv ∧ ∀ f, W k f = write_each B lv f) →
  ∀ acc r, collect_each F kids acc = Ok r →
    ∃ lv, r = acc ++ lv ∧ ∀ f, write_each W kids f = write_each B lv f.
Proof.
  intros HF. induction kids as [|k kids IH]; intros acc r Hrun; simpl in Hrun.
  - injection Hrun as <-. exists []. by rewrite app_nil_r.
  - destruct (F k acc) as [r1| |] eqn:Hk; try done. simpl in Hrun.
    apply HF in Hk as (lv1 & -> & H1).
    apply IH in Hrun as (lv2 & -> & H2).
    exists (lv1 ++ lv2). rewrite app_assoc. split; [done|].
    intros f. simpl. rewrite write_each_app, H1.
    destruct (write_each B lv1 f) as [f1| |]; simpl; [|done..]. apply H2.
Qed.

(** [write_clumps] writes one block for each clump that [get_lowest_clumps]
    returns, in that order: the heading, the info lines, an empty line.  The
    level it is given indents the block of a clump that is childless itself;
    the blocks of descendants are not indented. *)
Theorem write_clumps_writes_the_lowest_clumps fuel s a level f leaves :
  get_lowest_clumps fuel s a None = Ok leaves →
  write_clumps fuel s a level (Handle f)
  = write_each (leaf_block s (leaf_level s a level)) leaves f.
Proof.
  revert a level f leaves.
  induction fuel as [|fuel IH]; intros a level f leaves Hrun; [done|].
  simpl in Hrun. simpl. unfold leaf_level.
  destruct (objs s !! a) as [c|] eqn:Hc; [|done]. simpl in Hrun. simpl.
  rewrite (children_of_Some s a c Hc).
  destruct (children c) as [[|k kids]|] eqn:Hkids.
  - injection Hrun as <-. simpl. unfold leaf_block.
    destruct (write_info _ _ _ _) as [f1| |]; done.
  - unfold mbind at 1, result_bind at 1 in Hrun.
    destruct (collect_each _ (k :: kids) []) as [r| |] eqn:Hloop; try done.
    injection Hrun as <-.
    apply (write_each_as_blocks
             (λ child fh, write_clumps fuel s child 0 (Handle fh))
             (leaf_block s 0)) in Hloop as (lv & -> & Hlv).
    2:{ intros k' l r' (lv & Hk' & ->)%get_lowest_clumps_Some.
        exists lv. split; [done|]. intros f'.
        rewrite (IH k' 0 f' lv Hk'). unfold leaf_level.
        by destruct (children_of s k') as [[|? ?]|]. }
    unfold mbind at 1, result_bind at 1. rewrite Hlv. simpl.
    by destruct (write_each _ lv f).
  - injection Hrun as <-. simpl. unfold leaf_block.
    destruct (write_info _ _ _ _) as [f1| |]; done.
Qed.

(** ** [clear_clump_info] *)

Lemma set_clump_info_twice l1 l2 (c : Clump) :
  set_clump_info l2 (set_clump_info l1 c) = set_clump_info l2 c.
Proof. done. Qed.

Lemma set_clump_info_same (c : Clump) : set_clump_info (clump_info c) c = c.
Proof. by destruct c. Qed.

Lemma clearing_refl s : clearing s s.
Proof.
  split; try done.
  - intros b c Hc. exists (clump_info c). rewrite set_clump_info_same.
    split; [done|by left].
  - intros l ? ?. lia.
Qed.

Lemma clearing_trans s1 s2 s3 : clearing s1 s2 → clearing s2 s3 → clearing s1 s3.
Proof.
  intros [L1 O1 P1 N1 E1] [L2 O2 P2 N2 E2].
  pose proof (prefix_length _ _ P1) as Hl1.
  pose proof (prefix_length _ _ P2) as Hl2.
  split.
  - congruence.
  - intros b c Hc. destruct (O1 b c Hc) as (l1 & Hc1 & Hl).
    destruct (O2 b _ Hc1) as (l2 & Hc2 & Hl').
    exists l2. rewrite set_clump_info_twice in Hc2. split; [done|].
    simpl in Hl'. destruct Hl' as [->|?]; [|right; lia].
    destruct Hl as [?|?]; [by left|right; lia].
  - by etrans.
  - intros l Hl Hl3. destruct (decide (l < length (lists s2))) as [Hlt|Hge].
    + eapply prefix_lookup_Some; [|done]. by apply N1.
    + apply N2; [lia|done].
  - congruence.
Qed.

Lemma clearing_children s s' b : clearing s s' → children_of s' b = children_of s b.
Proof.
  intros [L O _ _ _]. unfold children_of.
  destruct (objs s !! b) as [c|] eqn:Hc.
  - destruct (O b c Hc) as (l & -> & _). done.
  - rewrite lookup_ge_None_2; [done|]. rewrite L. by apply lookup_ge_None_1.
Qed.

Lemma clearing_reach s s' a b : clearing s s' → reach s' a b ↔ reach s a b.
Proof.
  intros Hclr. split.
  - induction 1 as [a|a kids k b Hk Hin _ IH]; [constructor|].
    eapply reach_step; [|done..]. by rewrite <-(clearing_children s s').
  - induction 1 as [a|a kids k b Hk Hin _ IH]; [constructor|].
    eapply reach_step; [|done..]. by rewrite (clearing_children s s').
Qed.

Lemma holds_new_empty_list_later s0 s1 s2 b :
  length (lists s0) ≤ length (lists s1) →
  holds_new_empty_list s0 s1 b → clearing s1 s2 →
  holds_new_empty_list s0 s2 b.
Proof.
  intros Hlen (c1 & Hc1 & Hfresh & Hempty) [L O P N _].
  destruct (O b c1 Hc1) as (l & Hc2 & Hl).
  exists (set_clump_info l c1). split; [done|]. simpl.
  destruct Hl as [->|Hl].
  - split; [done|]. by eapply prefix_lookup_Some.
  - split; [lia|]. apply N; lia.
Qed.

Lemma holds_new_empty_list_base s0 s1 s2 b :
  length (lists s0) ≤ length (lists s1) →
  holds_new_empty_list s1 s2 b → holds_new_empty_list s0 s2 b.
Proof. intros ? (c & ? & ? & ?). exists c. split_and!; [done|lia|done]. Qed.

(** The first two statements of [clear_clump_info]. *)
Lemma rebind_clump_info_run a s c :
  objs s !! a = Some c →
  (l ← new_list []; upd_obj a (set_clump_info l)) s
  = Ok (tt, mkStore (<[a := set_clump_info (length (lists s)) c]> (objs s))
                    (lists s ++ [[]]) (evals s)).
Proof.
  intros Hc. unfold new_list, upd_obj, mbind, M_bind. simpl. by rewrite Hc.
Qed.

Lemma rebind_clump_info_clearing a s c :
  objs s !! a = Some c →
  let s0 := mkStore (<[a := set_clump_info (length (lists s)) c]> (objs s))
                    (lists s ++ [[]]) (evals s) in
  clearing s s0 ∧ holds_new_empty_list s s0 a ∧
  ∀ b, b ≠ a → objs s0 !! b = objs s !! b.
Proof.
  intros Hc s0.
  assert (Ha : a < length (objs s)) by (by eapply lookup_lt_Some).
  split_and!.
  - split; simpl.
    + by rewrite length_insert.
    + intros b cb Hb. destruct (decide (b = a)) as [->|Hne].
      * exists (length (lists s)). rewrite list_lookup_insert_eq by done.
        rewrite Hc in Hb. injection Hb as <-. split; [done|].
        right. rewrite length_app. simpl. lia.
      * exists (clump_info cb). rewrite list_lookup_insert_ne by done.
        rewrite set_clump_info_same. split; [done|by left].
    + by apply prefix_app_r.
    + intros l Hl1 Hl2. rewrite length_app in Hl2. simpl in Hl2.
      assert (l = length (lists s)) as -> by lia.
      rewrite lookup_app_r by lia. by rewrite Nat.sub_diag.
    + done.
  - exists (set_clump_info (length (lists s)) c). simpl.
    rewrite list_lookup_insert_eq by done. split_and!; [done|lia|].
    rewrite lookup_app_r by lia. by rewrite Nat.sub_diag.
  - intros b Hne. simpl. by rewrite list_lookup_insert_ne.
Qed.

Lemma clear_each_Ok (body : addr → M unit) kids :
  (∀ k s s', body k s = Ok (tt, s') →
     clearing s s' ∧
     (∀ b, reach s k b → holds_new_empty_list s s' b) ∧
     (∀ b, ¬ reach s k b → objs s' !! b = objs s !! b)) →
  ∀ s s', for_each kids body s = Ok (tt, s') →
    clearing s s' ∧
    (∀ k b, k ∈ kids → reach s k b → holds_new_empty_list s s' b) ∧
    (∀ b, (∀ k, k ∈ kids → ¬ reach s k b) → objs s' !! b = objs s !! b).
Proof.
  intros Hbody. induction kids as [|k kids IH]; intros s s' Hrun; simpl in Hrun.
  - injection Hrun as <-. split_and!; [apply clearing_refl| |done].
    by intros k b ?%elem_of_nil.
  - apply bind_Ok in Hrun as ([] & s1 & Hk & Hrun).
    apply Hbody in Hk as (Hc1 & Hin1 & Hout1).
    apply IH in Hrun as (Hc2 & Hin2 & Hout2).
    pose proof (prefix_length _ _ (clr_lists _ _ Hc1)) as Hlen.
    split_and!.
    + by eapply clearing_trans.
    + intros k' b [->|Hk']%elem_of_cons Hreach.
      * eapply holds_new_empty_list_later; [|by apply Hin1|done]. done.
      * eapply holds_new_empty_list_base; [done|].
        eapply Hin2; [done|]. by apply (clearing_reach s s1).
    + intros b Hb. rewrite Hout2, Hout1; [done|..].
      * apply Hb. left.
      * intros k' Hk' Hreach. apply (Hb k'); [by right|].
        by apply (clearing_reach s s1).
Qed.

(** [clear_clump_info] gives the clump and every descendant a list of its
    own that is new and empty.  All it changes in a clump is which list
    [clump_info] names: the list objects that existed keep their items,
    and clumps outside the tree are left as they are. *)
Theorem clear_clump_info_clears_the_tree fuel a s s' :
  clear_clump_info fuel a s = Ok (tt, s') →
  clearing s s' ∧
  (∀ b, reach s a b → holds_new_empty_list s s' b) ∧
  (∀ b, ¬ reach s a b → objs s' !! b = objs s !! b).
Proof.
  revert a s s'. induction fuel as [|fuel IH]; intros a s s' Hrun; [done|].
  simpl in Hrun.
  apply bind_Ok in Hrun as (l & s0 & Hl & Hrun).
  apply bind_Ok in Hrun as ([] & s1 & Hupd & Hrun).
  apply bind_Ok in Hrun as (c1 & ? & [Hc1 ->]%get_obj_Ok & Hrun).
  injection Hl as <- <-.
  apply upd_obj_Ok in Hupd as (c & Hc & ->). simpl in Hc. simpl in Hc1.
  destruct (rebind_clump_info_clearing a s c Hc) as (Hclr0 & Hnew0 & Hout0).
  set (s0 := mkStore _ _ _) in Hclr0, Hnew0, Hout0.
  change (with_objs _ _) with s0 in Hrun.
  assert (Hch : children_of s a = children c1).
  { rewrite <-(clearing_children s s0) by done.
    by apply children_of_Some. }
  assert (Hlen0 : length (lists s) ≤ length (lists s0)).
  { apply prefix_length, Hclr0. }
  destruct (children c1) as [kids|] eqn:Hkids.
  - apply (clear_each_Ok _ kids (IH)) in Hrun as (Hclr & Hin & Hout).
    split_and!.
    + by eapply clearing_trans.
    + intros b Hreach. inversion Hreach as [|? kids' k ? Hk Hkin Hkb]; subst.
      * by eapply holds_new_empty_list_later.
      * rewrite Hch in Hk. injection Hk as <-.
        eapply holds_new_empty_list_base; [done|].
        eapply Hin; [done|]. by apply (clearing_reach s s0).
    + intros b Hb. rewrite Hout, Hout0; [done|..].
      * intros ->. apply Hb. constructor.
      * intros k Hk Hreach. apply Hb. eapply reach_step; [done..|].
        by apply (clearing_reach s s0).
  - injection Hrun as <-. split_and!; [done| |].
    + intros b Hreach. inversion Hreach as [|? kids' k ? Hk Hkin Hkb]; subst.
      * done.
      * by rewrite Hch in Hk.
    + intros b Hb. apply Hout0. intros ->. apply Hb. constructor.
Qed.

(** ** [add_info_item] *)

Lemma appending_refl s : appending s s.
Proof.
  split; try done. intros l xs ?. exists []. by rewrite app_nil_r.
Qed.

Lemma appending_trans s1 s2 s3 :
  appending s1 s2 → appending s2 s3 → appending s1 s3.
Proof.
  intros [O1 E1 N1 L1] [O2 E2 N2 L2]. split; try congruence.
  intros l xs Hl. destruct (L1 l xs Hl) as (ys & Hl2).
  destruct (L2 l _ Hl2) as (zs & Hl3). exists (ys ++ zs).
  by rewrite app_assoc.
Qed.

Lemma appending_reach s s' a b : appending s s' → reach s' a b ↔ reach s a b.
Proof.
  intros [O _ _ _].
  assert (Hch : ∀ x, children_of s' x = children_of s x).
  { intros x. unfold children_of. by rewrite O. }
  split; induction 1 as [a|a kids k b Hk Hin _ IH]; try constructor.
  - eapply reach_step; [|done..]. by rewrite <-Hch.
  - eapply reach_step; [|done..]. by rewrite Hch.
Qed.

Lemma gained_between s0 s1 s2 s3 b cb :
  appending s0 s1 → gained s1 s2 b cb → appending s2 s3 → gained s0 s3 b cb.
Proof.
  intros [O1 _ N1 L1] (c & xs & ys & Hc & Hxs & Hxs' & Hin) [O3 _ N3 L3].
  rewrite O1 in Hc.
  destruct (lookup_lt_is_Some_2 (lists s0) (clump_info c)) as [xs0 Hxs0].
  { rewrite <-N1. by eapply lookup_lt_Some. }
  destruct (L1 _ _ Hxs0) as (ys0 & Hxs1). rewrite Hxs in Hxs1.
  injection Hxs1 as ->.
  destruct (L3 _ _ Hxs') as (ys3 & Hxs3).
  exists c, xs0, (ys0 ++ ys ++ ys3). split_and!; [done|done| |].
  - rewrite Hxs3. f_equal. by rewrite <-!app_assoc.
  - rewrite !elem_of_app. auto.
Qed.

Lemma list_append_appending l x s xs :
  lists s !! l = Some xs →
  appending s (with_lists (<[l := xs ++ [x]]> (lists s)) s).
Proof.
  intros Hl. split; simpl; try done.
  - by rewrite length_insert.
  - intros l' xs' Hl'. destruct (decide (l' = l)) as [->|Hne].
    + rewrite Hl in Hl'. injection Hl' as <-. exists [x].
      apply list_lookup_insert_eq. by eapply lookup_lt_Some.
    + exists []. rewrite app_nil_r. by rewrite list_lookup_insert_ne.
Qed.

Lemma add_each_Ok (body : addr → M unit) (cb0 : Callback) kids :
  (∀ k s s', body k s = Ok (tt, s') →
     appending s s' ∧ ∀ b, reach s k b → gained s s' b cb0) →
  ∀ s s', for_each kids body s = Ok (tt, s') →
    appending s s' ∧ ∀ k b, k ∈ kids → reach s k b → gained s s' b cb0.
Proof.
  intros Hbody. induction kids as [|k kids IH]; intros s s' Hrun; simpl in Hrun.
  - injection Hrun as <-. split; [apply appending_refl|].
    by intros k b ?%elem_of_nil.
  - apply bind_Ok in Hrun as ([] & s1 & Hk & Hrun).
    apply Hbody in Hk as (Ha1 & Hin1). apply IH in Hrun as (Ha2 & Hin2).
    split; [by eapply appending_trans|].
    intros k' b [->|Hk']%elem_of_cons Hreach.
    + eapply (gained_between s s s1 s'); [apply appending_refl| |done].
      by apply Hin1.
    + eapply (gained_between s s1 s' s'); [done| |apply appending_refl].
      eapply Hin2; [done|]. by apply (appending_reach s s1).
Qed.

(** When [add_info_item] returns, the list of the clump has gained the item
    that the registry makes of the name with the parameters, and the list of
    every descendant the item that the registry makes of the name alone.
    Nothing else happens: no clump changes, and the lists only grow at
    their end. *)
Theorem add_info_item_reaches_the_tree fuel a name params s s' :
  add_info_item fuel a name params s = Ok (tt, s') →
  appending s s' ∧
  (∃ cb, registry_find name params = Some cb ∧ gained s s' a cb) ∧
  ∀ kids k b, children_of s a = Some kids → k ∈ kids → reach s k b →
    ∃ cb0, registry_find name no_params = Some cb0 ∧ gained s s' b cb0.
Proof.
  revert a params s s'.
  induction fuel as [|fuel IH]; intros a params s s' Hrun; [done|].
  simpl in Hrun.
  apply bind_Ok in Hrun as (cb & s0 & Hcb & Hrun).
  destruct (registry_find name params) as [cb'|] eqn:Hfind; [|done].
  injection Hcb as -> <-.
  apply bind_Ok in Hrun as (c & ? & [Hc ->]%get_obj_Ok & Hrun).
  apply bind_Ok in Hrun as ([] & s1 & Happ & Hrun).
  unfold list_append in Happ.
  destruct (lists s !! clump_info c) as [xs|] eqn:Hxs; [|done].
  injection Happ as <-.
  pose proof (list_append_appending _ cb _ _ Hxs) as Ha1.
  set (s1 := with_lists _ s) in Hrun, Ha1.
  assert (Hg1 : gained s s1 a cb).
  { exists c, xs, [cb]. split_and!; [done|done| |left].
    simpl. apply list_lookup_insert_eq. by eapply lookup_lt_Some. }
  apply bind_Ok in Hrun as (c1 & ? & [Hc1 ->]%get_obj_Ok & Hrun).
  simpl in Hc1. rewrite Hc in Hc1. injection Hc1 as <-.
  rewrite (children_of_Some s a c Hc).
  destruct (children c) as [kids|] eqn:Hkids.
  2:{ injection Hrun as <-. split_and!; [done|by exists cb|done]. }
  destruct kids as [|k0 kids0].
  { injection Hrun as <-. split_and!; [done|by exists cb|].
    intros ? k b [= <-] ?%elem_of_nil. done. }
  assert (∃ cb0, registry_find name no_params = Some cb0) as [cb0 Hcb0].
  { simpl in Hrun. apply bind_Ok in Hrun as ([] & s2 & Hk0 & _).
    destruct fuel as [|fuel']; [done|]. simpl in Hk0.
    destruct (registry_find name no_params) as [cb0|]; [by exists cb0|done]. }
  apply (add_each_Ok _ cb0) in Hrun as (Ha2 & Hin).
  2:{ intros k s2 s3 Hk. apply IH in Hk as (? & (cb0' & Hcb0' & ?) & Hdesc).
      rewrite Hcb0 in Hcb0'. injection Hcb0' as <-.
      split; [done|]. intros b Hreach.
      inversion Hreach as [|? kids' k' ? Hk' Hkin Hkb]; subst; [done|].
      destruct (Hdesc kids' k' b Hk' Hkin Hkb) as (cb0' & Hcb0' & ?).
      rewrite Hcb0 in Hcb0'. by injection Hcb0' as <-. }
  split_and!.
  - by eapply appending_trans.
  - exists cb. split; [done|].
    eapply (gained_between s s s1 s'); [apply appending_refl|done..].
  - intros ? k b [= <-] Hk Hreach. exists cb0. split; [done|].
    eapply (gained_between s s1 s' s'); [done| |apply appending_refl].
    eapply Hin; [done|]. by apply (appending_reach s s1).
Qed.

(** ** [Clump.__init__] without [clump_info] *)

Lemma add_info_item_leaf_run a name c xs cb s :
  objs s !! a = Some c → children c = None →
  lists s !! clump_info c = Some xs →
  registry_find name no_params = Some cb →
  add_info_item 1 a name no_params s
  = Ok (tt, with_lists (<[clump_info c := xs ++ [cb]]> (lists s)) s).
Proof.
  intros Hc Hch Hxs Hcb. simpl. rewrite Hcb.
  erewrite bind_run by reflexivity.
  erewrite bind_run by (by apply get_obj_run).
  erewrite bind_run by (by apply list_append_run).
  erewrite bind_run by (by apply get_obj_run).
  by rewrite Hch.
Qed.

(** The constructor starts with the bounds [data[field].min()] and
    [data[field].max()]: on a region without cells it raises ValueError,
    whatever [clump_info] is.  On a region that has cells, a clump
    constructed without [clump_info] gets a list of its own with the seven
    default items, in the order of [set_default_clump_info], as the registry
    makes them of their names alone.  The new object follows the objects of
    the store, with its bounds taken from the data, the default validity
    test when none is given, no cached validity and [children] unset; the
    objects and lists that existed are as they were. *)
Theorem Clump_init_default_info d p f cf fn cbs s :
  Forall2 (λ name cb, registry_find name no_params = Some cb)
          default_info_items cbs →
  (ones_size d = 0 →
   ∀ ci, Clump_init d p f cf fn ci s = Raise ValueError) ∧
  (ones_size d ≠ 0 →
   ∃ l s',
     Clump_init d p f cf fn None s = Ok (length (objs s), s') ∧
     objs s' = objs s ++
       [mkClump p d f (field_min d f) (field_max d f) (Has cf) l
                (Some (default default_function fn)) None None] ∧
     lists s `prefix_of` lists s' ∧ length (lists s) ≤ l ∧
     lists s' !! l = Some cbs ∧ evals s' = evals s).
Proof.
  intros Hcbs. split.
  { intros Hd ci. by apply Clump_init_no_cells. }
  intros Hd. unfold default_info_items in Hcbs.
  repeat match goal with
         | H : Forall2 _ (_ :: _) _ |- _ =>
           apply Forall2_cons_inv_l in H as (? & ? & ? & H & ->)
         | H : Forall2 _ [] _ |- _ => apply Forall2_nil_inv_l in H as ->
         end.
  set (l := S (length (lists s))).
  set (c := mkClump p d f (field_min d f) (field_max d f) (Has cf) l
                    (Some (default default_function fn)) None None).
  assert (Hstep : ∀ name cb xs ls,
    length ls = l → registry_find name no_params = Some cb →
    add_info_item 1 (length (objs s)) name no_params
      (mkStore (objs s ++ [c]) (ls ++ [xs]) (evals s))
    = Ok (tt, mkStore (objs s ++ [c]) (ls ++ [xs ++ [cb]]) (evals s))).
  { intros name cb xs ls Hls Hcb.
    erewrite (add_info_item_leaf_run _ name c xs cb); [|simpl..|done].
    - unfold with_lists. simpl. f_equal. f_equal. f_equal.
      rewrite <-Hls. replace (length ls) with (length ls + 0) by lia.
      by rewrite insert_app_r.
    - by rewrite lookup_app_r, Nat.sub_diag.
    - done.
    - rewrite lookup_app_r by lia. by rewrite Hls, Nat.sub_diag. }
  exists l. eexists. split.
  - unfold Clump_init, set_default_clump_info, field_bounds.
    rewrite bool_decide_false by done.
    erewrite bind_run by reflexivity. cbv beta iota.
    erewrite bind_run by reflexivity.
    erewrite bind_run by reflexivity.
    erewrite bind_run; [reflexivity|].
    erewrite bind_run by reflexivity.
    erewrite bind_run.
    2:{ apply upd_obj_run. simpl. by rewrite lookup_app_r, Nat.sub_diag. }
    cbn -[add_info_item].
    assert (Hls : length (lists s ++ [[]]) = l).
    { rewrite length_app. simpl. lia. }
    match goal with |- _ ?st = _ => set (s0 := st) end.
    assert (s0 = mkStore (objs s ++ [c]) ((lists s ++ [[]]) ++ [[]]) (evals s))
      as ->.
    { unfold s0, with_objs, with_lists. simpl. f_equal.
      replace (length (objs s)) with (length (objs s) + 0) at 1 by lia.
      rewrite insert_app_r. simpl. unfold set_clump_info. simpl.
      rewrite Hls. by destruct fn. }
    repeat (erewrite bind_run; [|by apply Hstep]).
    by apply Hstep.
  - simpl. split_and!; [done| |lia| |done].
    + rewrite <-app_assoc. by apply prefix_app_r.
    + rewrite lookup_app_r by (rewrite length_app; simpl; lia).
      rewrite length_app. simpl. unfold l.
      by replace (S (length (lists s)) - (length (lists s) + 1)) with 0 by lia.
Qed.

(** ** Well-formed stores *)

Lemma wf_constructed s b : well_formed s → b < length (objs s) → constructed s b.
Proof.
  intros [Hb _] Hlt. destruct (lookup_lt_is_Some_2 _ _ Hlt) as [c Hc].
  destruct (Hb b c Hc) as ((cf & ?) & (xs & ?) & _). by exists c, cf, xs.
Qed.

Lemma set_children_wf s a c ch :
  well_formed s → objs s !! a = Some c →
  (∀ kids k, ch = Some kids → k ∈ kids → a < k < length (objs s)) →
  well_formed (with_objs (<[a := set_children ch c]> (objs s)) s).
Proof.
  intros [Hb Hk] Hc Hch.
  assert (Ha : a < length (objs s)) by (by eapply lookup_lt_Some).
  split; simpl.
  - intros b cb. destruct (decide (b = a)) as [->|Hne].
    + rewrite list_lookup_insert_eq by done. intros [= <-]. by apply (Hb a c).
    + rewrite list_lookup_insert_ne by done. apply Hb.
  - intros b kids k. unfold children_of. simpl. rewrite length_insert.
    destruct (decide (b = a)) as [->|Hne].
    + rewrite list_lookup_insert_eq by done. simpl. apply Hch.
    + rewrite list_lookup_insert_ne by done. apply Hk.
Qed.

Lemma _isValid_wf k s v s' :
  _isValid k s = Ok (v, s') → well_formed s →
  well_formed s' ∧ length (objs s') = length (objs s).
Proof.
  intros H [Hb Hk].
  apply _isValid_effect in H as (Hlen & Hlists & Hne & c & Hc & Hc').
  split; [|done]. split.
  - intros b cb. rewrite Hlists. destruct (decide (b = k)) as [->|?].
    + rewrite Hc'. intros [= <-]. by apply (Hb k c).
    + rewrite Hne by done. apply Hb.
  - intros b kids k'. rewrite Hlen.
    replace (children_of s' b) with (children_of s b); [apply Hk|].
    unfold children_of. destruct (decide (b = k)) as [->|?].
    + by rewrite Hc, Hc'.
    + by rewrite Hne.
Qed.

Lemma _isValid_returns k s :
  well_formed s → k < length (objs s) → ∃ v s', _isValid k s = Ok (v, s').
Proof.
  intros [Hb _] Hlt. destruct (lookup_lt_is_Some_2 _ _ Hlt) as [c Hc].
  destruct (Hb k c Hc) as (_ & _ & f & Hf).
  unfold _isValid. erewrite bind_run by (by apply get_obj_run).
  destruct (function_value c) as [v|]; [by eexists _, _|].
  rewrite Hf. erewrite bind_run by reflexivity.
  erewrite bind_run by reflexivity.
  erewrite bind_run by (by apply upd_obj_run). by eexists _, _.
Qed.

Lemma find_children_wf a mn mxo s :
  well_formed s → a < length (objs s) →
  ∃ s1 n, find_children a mn mxo s = Ok (tt, s1) ∧ well_formed s1 ∧
          children_of s1 a = Some (seq (length (objs s)) n) ∧
          length (objs s1) = length (objs s) + n.
Proof.
  intros Hwf Ha. pose proof (wf_constructed s a Hwf Ha) as Hcon.
  destruct Hwf as [Hb Hk].
  destruct Hcon as (c & cf & xs & Hc & Hcf & Hxs).
  eexists _, _. split; [by apply (find_children_run a mn mxo s c cf xs)|].
  set (cids := (identify_contours _ _ _ _).2).
  set (ids := child_ids _ _ _ _).
  split_and!.
  - split.
    + intros b cb Hcb.
      destruct (decide (b < length (objs s))) as [Hlt|Hge].
      * assert (∃ cb0 ch, objs s !! b = Some cb0 ∧ cb = set_children ch cb0)
          as (cb0 & ch & Hcb0 & ->).
        { destruct (decide (b = a)) as [->|Hne].
          - rewrite after_children_self in Hcb by done.
            injection Hcb as <-. eauto.
          - rewrite after_children_old in Hcb by done.
            exists cb, (children cb). split; [done|]. by destruct cb. }
        destruct (Hb b cb0 Hcb0) as (? & (ys & Hys) & ?). simpl.
        split_and!; [done| |done].
        exists ys. apply lookup_app_l_Some. done.
      * replace b with (length (objs s) + (b - length (objs s))) in Hcb by lia.
        rewrite after_children_new in Hcb.
        destruct (ids !! (b - length (objs s))) as [cid|] eqn:Hcid; [|done].
        injection Hcb as <-. simpl. split_and!; [by eexists| |by eexists].
        exists xs. rewrite lookup_app_r by lia.
        apply lookup_replicate_2. apply lookup_lt_Some in Hcid. lia.
    + intros b kids k Hbk Hin. rewrite after_children_length.
      destruct (decide (b < length (objs s))) as [Hlt|Hge].
      * destruct (decide (b = a)) as [->|Hne].
        -- unfold children_of in Hbk.
           rewrite after_children_self in Hbk by done. simpl in Hbk.
           injection Hbk as <-. apply elem_of_seq in Hin. lia.
        -- unfold children_of in Hbk.
           rewrite after_children_old in Hbk by done.
           destruct (Hk b kids k Hbk Hin). lia.
      * unfold children_of in Hbk.
        replace b with (length (objs s) + (b - length (objs s))) in Hbk by lia.
        rewrite after_children_new in Hbk.
        by destruct (ids !! (b - length (objs s))).
  - unfold children_of. by rewrite after_children_self.
  - apply after_children_length.
Qed.

Lemma find_children_wf_Ok a mn mxo s s1 :
  well_formed s → a < length (objs s) →
  find_children a mn mxo s = Ok (tt, s1) →
  ∃ n, well_formed s1 ∧
       children_of s1 a = Some (seq (length (objs s)) n) ∧
       length (objs s1) = length (objs s) + n.
Proof.
  intros Hwf Ha Hrun.
  destruct (find_children_wf a mn mxo s Hwf Ha) as (s1' & n & Hrun' & ?).
  rewrite Hrun in Hrun'. injection Hrun' as <-. by exists n.
Qed.

Lemma investigate_wf (recurse : addr → M unit) :
  (∀ k s s', well_formed s → k < length (objs s) →
     recurse k s = Ok (tt, s') →
     well_formed s' ∧ length (objs s) ≤ length (objs s')) →
  ∀ rest these s these' s',
    investigate recurse rest these s = Ok (these', s') →
    well_formed s → (∀ k, k ∈ rest → k < length (objs s)) →
    well_formed s' ∧ length (objs s) ≤ length (objs s') ∧
    ∀ k, k ∈ these' → k ∈ these ∨ k ∈ rest.
Proof.
  intros Hrec. induction rest as [|k0 rest IH];
    intros these s these' s' Hrun Hwf Hrest; simpl in Hrun.
  { injection Hrun as <- <-. split_and!; [done|done|]. auto. }
  apply bind_Ok in Hrun as ([] & sa & Hk0 & Hrun).
  apply Hrec in Hk0 as (Hwfa & Hlena); [|done|apply Hrest; left].
  apply bind_Ok in Hrun as (c & ? & [Hc ->]%get_obj_Ok & Hrun).
  assert (Hresta : ∀ k, k ∈ rest → k < length (objs sa)).
  { intros k Hk. pose proof (Hrest k ltac:(by right)). lia. }
  destruct (has_children c).
  - apply IH in Hrun as (? & ? & Hin); [|done..].
    split_and!; [done|lia|].
    intros k Hk. apply Hin in Hk as [Hk|Hk]; [|by right; right].
    apply elem_of_app in Hk as [?|Hk]; [by left|].
    apply list_elem_of_singleton in Hk as ->. right; left.
  - apply bind_Ok in Hrun as (v & sb & Hval & Hrun).
    apply _isValid_wf in Hval as (Hwfb & Hlenb); [|done].
    rewrite <-Hlenb in Hresta.
    destruct v; apply IH in Hrun as (? & ? & Hin); try done.
    + split_and!; [done|lia|].
      intros k Hk. apply Hin in Hk as [Hk|Hk]; [|by right; right].
      apply elem_of_app in Hk as [?|Hk]; [by left|].
      apply list_elem_of_singleton in Hk as ->. right; left.
    + split_and!; [done|lia|].
      intros k [?|?]%Hin; [by left|by right; right].
Qed.

Lemma investigate_returns (recurse : addr → M unit) :
  (∀ k s, well_formed s → k < length (objs s) →
     ∃ s', recurse k s = Ok (tt, s') ∧
           well_formed s' ∧ length (objs s) ≤ length (objs s')) →
  ∀ rest these s,
    well_formed s → (∀ k, k ∈ rest → k < length (objs s)) →
    ∃ these' s', investigate recurse rest these s = Ok (these', s').
Proof.
  intros Hrec. induction rest as [|k0 rest IH]; intros these s Hwf Hrest.
  { by eexists _, _. }
  destruct (Hrec k0 s Hwf) as (sa & Hk0 & Hwfa & Hlena); [apply Hrest; left|].
  assert (Hk0a : k0 < length (objs sa)).
  { pose proof (Hrest k0 ltac:(left)). lia. }
  assert (Hresta : ∀ k, k ∈ rest → k < length (objs sa)).
  { intros k Hk. pose proof (Hrest k ltac:(by right)). lia. }
  destruct (lookup_lt_is_Some_2 _ _ Hk0a) as [c Hc].
  simpl. erewrite bind_run by done.
  erewrite bind_run by (by apply get_obj_run).
  destruct (has_children c); [by apply IH|].
  destruct (_isValid_returns k0 sa Hwfa Hk0a) as (v & sb & Hval).
  erewrite bind_run by done.
  apply _isValid_wf in Hval as (Hwfb & Hlenb); [|done].
  rewrite <-Hlenb in Hresta. destruct v; by apply IH.
Qed.

Lemma link_survivors_wf a these s2 s' :
  well_formed s2 → (∀ k, k ∈ these → a < k < length (objs s2)) →
  link_survivors a these s2 = Ok (tt, s') →
  well_formed s' ∧ length (objs s') = length (objs s2).
Proof.
  intros Hwf Hin Hrun.
  apply link_survivors_Ok in Hrun as (c2 & ch & Hc2 & -> & H1 & H2 & H3).
  split; [|by simpl; rewrite length_insert].
  apply set_children_wf; [done..|].
  intros kids k -> Hk. destruct these as [|x [|y l]].
  - specialize (H3 eq_refl). injection H3 as ->. by apply elem_of_nil in Hk.
  - specialize (H2 x eq_refl). symmetry in H2.
    destruct (wf_kids _ Hwf x kids k H2 Hk).
    destruct (Hin x); [left|]. lia.
  - specialize (H1 ltac:(simpl; lia)). injection H1 as ->. by apply Hin.
Qed.

Lemma link_survivors_returns a these s2 :
  a < length (objs s2) → (∀ k, k ∈ these → k < length (objs s2)) →
  ∃ s', link_survivors a these s2 = Ok (tt, s').
Proof.
  intros Ha Hin. destruct (lookup_lt_is_Some_2 _ _ Ha) as [c Hc].
  unfold link_survivors. case_bool_decide.
  { rewrite (upd_obj_run _ _ _ _ Hc). by eexists. }
  case_bool_decide.
  - destruct these as [|x [|? ?]]; try done. simpl.
    destruct (lookup_lt_is_Some_2 (objs s2) x) as [cx Hcx]; [apply Hin; left|].
    erewrite bind_run by (by apply get_obj_run).
    rewrite (upd_obj_run _ _ _ _ Hc). by eexists.
  - rewrite (upd_obj_run _ _ _ _ Hc). by eexists.
Qed.

(** [find_clumps] keeps the store well formed. *)
Lemma find_clumps_wf fuel :
  ∀ a mn mx d s s',
    well_formed s → a < length (objs s) →
    find_clumps fuel a mn mx d s = Ok (tt, s') →
    well_formed s' ∧ length (objs s) ≤ length (objs s').
Proof.
  induction fuel as [|fuel IH]; intros a mn mx d s s' Hwf Ha Hrun; [done|].
  simpl in Hrun. destruct (val_ge mn mx).
  { by injection Hrun as <-. }
  apply bind_Ok in Hrun as ([] & s1 & Hfc & Hrun).
  apply find_children_wf_Ok in Hfc as (n & Hwf1 & Hkids & Hlen1); [|done..].
  apply bind_Ok in Hrun as (c1 & ? & [Hc1 ->]%get_obj_Ok & Hrun).
  rewrite (children_of_Some _ _ _ Hc1) in Hkids. rewrite Hkids in Hrun.
  rewrite length_seq in Hrun.
  case_bool_decide.
  { apply IH in Hrun as [? ?]; [|done|lia]. split; [done|lia]. }
  case_bool_decide.
  2:{ injection Hrun as <-. split; [done|lia]. }
  apply bind_Ok in Hrun as (these & s2 & Hloop & Hrun).
  apply (investigate_wf _ (λ k s s', IH k _ _ _ s s')) in Hloop
    as (Hwf2 & Hlen2 & Hin); [|done|].
  2:{ intros k Hk%elem_of_seq. lia. }
  apply link_survivors_wf in Hrun as [? ?]; [split; [done|lia]|done|].
  intros k [[]%elem_of_nil|Hk%elem_of_seq]%Hin. lia.
Qed.

Lemma reach_wf s a b :
  well_formed s → a < length (objs s) → reach s a b →
  b = a ∨ a < b < length (objs s).
Proof.
  intros Hwf Ha Hreach. induction Hreach as [a|a kids k b Hk Hin _ IH].
  - by left.
  - right. destruct (wf_kids _ Hwf a kids k Hk Hin).
    destruct IH as [->|?]; lia.
Qed.

(** [find_clumps] builds a tree.  Started on a clump of a well-formed store,
    it leaves a well-formed store: every clump, old or new, has cached
    fields, an info list of the store and a validity test, and the children
    of a clump are clumps of the store made after it, so that no clump is
    among its own descendants. *)
Theorem find_clumps_builds_a_tree fuel a mn mx d s s' :
  well_formed s → a < length (objs s) →
  find_clumps fuel a mn mx d s = Ok (tt, s') →
  well_formed s' ∧
  ∀ b, reach s' a b → b = a ∨ a < b < length (objs s').
Proof.
  intros Hwf Ha Hrun.
  apply find_clumps_wf in Hrun as [Hwf' Hlen]; [|done..].
  split; [done|]. intros b. apply reach_wf; [done|lia].
Qed.

Lemma raised_S d n mn : raised d (S n) mn = raised d n (val_mul mn d).
Proof. unfold raised. by rewrite Nat.iter_succ_r. Qed.

(** [find_clumps] returns.  On a clump of a well-formed store, when the
    threshold reaches [max_val] after [n] raises by the step factor, the
    call neither raises an exception nor needs more than [n] nested calls:
    with fuel [n + 1] it returns a store. *)
Theorem find_clumps_returns n a mn mx d s :
  well_formed s → a < length (objs s) →
  val_ge (raised d n mn) mx = true →
  ∃ s', find_clumps (S n) a mn mx d s = Ok (tt, s').
Proof.
  revert a mn s. induction n as [|n IH]; intros a mn s Hwf Ha Hge.
  { simpl in *. unfold raised in Hge. simpl in Hge. rewrite Hge. by eexists. }
  rewrite raised_S in Hge.
  change (find_clumps (S (S n)) a mn mx d s) with
    ((if val_ge mn mx then mret tt else
      find_children a mn None;;
      c ← get_obj a;
      match children c with
      | None => raise TypeError
      | Some kids =>
        if bool_decide (length kids = 1) then
          find_clumps (S n) a (val_mul mn d) mx d
        else if bool_decide (0 < length kids) then
          these_children ←
            investigate
              (λ child, find_clumps (S n) child (val_mul mn d) mx d) kids [];
          link_survivors a these_children
        else mret tt
      end) s).
  destruct (val_ge mn mx); [by eexists|].
  destruct (find_children_wf a mn None s Hwf Ha)
    as (s1 & m & Hfc & Hwf1 & Hkids & Hlen1).
  erewrite bind_run by done.
  assert (Ha1 : a < length (objs s1)) by lia.
  destruct (lookup_lt_is_Some_2 _ _ Ha1) as [c1 Hc1].
  erewrite bind_run by (by apply get_obj_run).
  rewrite (children_of_Some _ _ _ Hc1) in Hkids. rewrite Hkids.
  rewrite length_seq.
  case_bool_decide; [by apply IH|].
  case_bool_decide; [|by eexists].
  destruct (investigate_returns
              (λ child, find_clumps (S n) child (val_mul mn d) mx d)) with
    (rest := seq (length (objs s)) m) (these := @nil nat) (s := s1)
    as (these & s2 & Hloop).
  - intros k s0 Hwf0 Hk. destruct (IH k (val_mul mn d) s0) as [s0' Hk0];
      [done..|].
    exists s0'. split; [done|]. by eapply find_clumps_wf.
  - done.
  - intros k Hk%elem_of_seq. lia.
  - erewrite bind_run by done.
    apply (investigate_wf _ (λ k s s', find_clumps_wf _ k _ _ _ s s')) in Hloop
      as (Hwf2 & Hlen2 & Hin); [|done|].
    2:{ intros k Hk%elem_of_seq. lia. }
    apply link_survivors_returns; [lia|].
    intros k [[]%elem_of_nil|Hk%elem_of_seq]%Hin. lia.
Qed.

(** ** Going through a well-formed tree *)

Lemma collect_each_returns (F : addr → list addr → result (list addr)) kids :
  (∀ k l, k ∈ kids → ∃ r, F k l = Ok r) →
  ∀ acc, ∃ r, collect_each F kids acc = Ok r.
Proof.
  induction kids as [|k kids IH]; intros HF acc; simpl; [by eexists|].
  destruct (HF k acc) as [r Hr]; [left|]. rewrite Hr. simpl.
  apply IH. intros k' l ?. apply HF. by right.
Qed.

Lemma write_each_returns (W : addr → File → result File) kids :
  (∀ k f, k ∈ kids → ∃ f', W k f = Ok f') →
  ∀ f, ∃ f', write_each W kids f = Ok f'.
Proof.
  induction kids as [|k kids IH]; intros HW f; simpl; [by eexists|].
  destruct (HW k f) as [f' Hf']; [left|]. rewrite Hf'. simpl.
  apply IH. intros k' l ?. apply HW. by right.
Qed.

Lemma write_info_returns s a level f :
  well_formed s → a < length (objs s) → ∃ f', write_info s a level f = Ok f'.
Proof.
  intros [Hb _] Ha. destruct (lookup_lt_is_Some_2 _ _ Ha) as [c Hc].
  destruct (Hb a c Hc) as (_ & [xs Hxs] & _).
  unfold write_info. rewrite Hc, Hxs. by eexists.
Qed.

(** On a well-formed store the functions that only read the tree return:
    [get_lowest_clumps], [write_clump_index] and [write_clumps] raise no
    exception and come back after at most as many nested calls as there are
    clumps from the one they start on. *)
Theorem readers_return fuel s a l level fh :
  well_formed s → a < length (objs s) → length (objs s) - a ≤ fuel →
  (∃ leaves, get_lowest_clumps fuel s a l = Ok leaves) ∧
  (∃ f, write_clump_index fuel s a level fh = Ok f) ∧
  (∃ f, write_clumps fuel s a level fh = Ok f).
Proof.
  intros Hwf. revert a l level fh.
  induction fuel as [|fuel IH]; intros a l level fh Ha Hfuel; [lia|].
  destruct (lookup_lt_is_Some_2 _ _ Ha) as [c Hc].
  assert (Hkids : ∀ kids k, children c = Some kids → k ∈ kids →
    k < length (objs s) ∧ length (objs s) - k ≤ fuel).
  { intros kids k Hch Hk.
    destruct (wf_kids _ Hwf a kids k); [by rewrite (children_of_Some s a c)|done|].
    lia. }
  split_and!.
  - simpl. rewrite Hc. simpl.
    destruct (children c) as [[|k kids]|] eqn:Hch; [by eexists| |by eexists].
    destruct (collect_each_returns
                (λ child l, get_lowest_clumps fuel s child (Some l))
                (k :: kids)) with (acc := default [] l) as [r Hr].
    + intros k' l' Hk'. destruct (Hkids _ k' eq_refl Hk').
      by apply (IH k' (Some l') 0 fh).
    + exists r. change (default [] l) with
        (match l with Some l0 => l0 | None => [] end) in Hr. by rewrite Hr.
  - simpl. destruct fh as [name|f].
    + destruct (write_info_returns s a level
        (fwrite ("Clump at level " +:+ pretty level +:+ ":" +:+ nl)
           (foldl (λ f q, fwrite tab f) (open_w name) (seq 0 level))) Hwf Ha)
        as [f1 Hf1].
      rewrite Hf1. simpl. rewrite Hc. simpl.
      destruct (children c) as [[|k kids]|] eqn:Hch; [by eexists| |by eexists].
      destruct (write_each_returns
          (λ child fh, write_clump_index fuel s child (level + 1) (Handle fh))
          (k :: kids)) with (f := fwrite nl f1) as [f2 Hf2].
      * intros k' f' Hk'. destruct (Hkids _ k' eq_refl Hk').
        by apply (IH k' l (level + 1) (Handle f')).
      * rewrite Hf2. by eexists.
    + destruct (write_info_returns s a level
        (fwrite ("Clump at level " +:+ pretty level +:+ ":" +:+ nl)
           (foldl (λ f q, fwrite tab f) f (seq 0 level))) Hwf Ha)
        as [f1 Hf1].
      rewrite Hf1. simpl. rewrite Hc. simpl.
      destruct (children c) as [[|k kids]|] eqn:Hch; [by eexists| |by eexists].
      destruct (write_each_returns
          (λ child fh, write_clump_index fuel s child (level + 1) (Handle fh))
          (k :: kids)) with (f := fwrite nl f1) as [f2 Hf2].
      * intros k' f' Hk'. destruct (Hkids _ k' eq_refl Hk').
        by apply (IH k' l (level + 1) (Handle f')).
      * rewrite Hf2. by eexists.
  - simpl. rewrite Hc. simpl.
    set (f0 := match fh with Handle f => f | Path name => open_w name end).
    assert (∃ f1,
      match children c with
      | Some (_ :: _) => Ok f0
      | _ => f1 ← write_info s a level
                     (fwrite (tabs level +:+ "Clump:" +:+ nl) f0);
             Ok (fwrite nl f1)
      end = Ok f1) as [f1 Hf1].
    { destruct (children c) as [[|? ?]|]; try by eexists.
      - destruct (write_info_returns s a level
          (fwrite (tabs level +:+ "Clump:" +:+ nl) f0) Hwf Ha) as [f1 ->].
        by eexists.
      - destruct (write_info_returns s a level
          (fwrite (tabs level +:+ "Clump:" +:+ nl) f0) Hwf Ha) as [f1 ->].
        by eexists. }
    assert (∃ f2,
      match children c with
      | Some ((_ :: _) as kids) =>
        write_each (λ child fh, write_clumps fuel s child 0 (Handle fh))
                   kids f1
      | _ => Ok f1
      end = Ok f2) as [f2 Hf2].
    { destruct (children c) as [[|k kids]|] eqn:Hch; try by eexists.
      apply write_each_returns. intros k' f' Hk'.
      destruct (Hkids _ k' eq_refl Hk').
      by apply (IH k' l 0 (Handle f')). }
    destruct fh as [name|f]; subst f0; simpl; rewrite Hf1; simpl;
      rewrite Hf2; by eexists.
Qed.

(** ** The methods that go down the tree return *)

Lemma clearing_wf s s' : well_formed s → clearing s s' → well_formed s'.
Proof.
  intros [Hb Hk] Hclr. pose proof Hclr as [L O P N _]. split.
  - intros b c' Hc'.
    destruct (lookup_lt_is_Some_2 (objs s) b) as [c Hc].
    { rewrite <-L. by eapply lookup_lt_Some. }
    destruct (O b c Hc) as (l & Hc'' & Hl). rewrite Hc' in Hc''.
    injection Hc'' as ->. destruct (Hb b c Hc) as (? & [xs Hxs] & ?).
    simpl. split_and!; [done| |done].
    destruct Hl as [->|Hl].
    + exists xs. by eapply prefix_lookup_Some.
    + apply lookup_lt_is_Some_2. lia.
  - intros b kids k. rewrite (clearing_children s s' b Hclr), L. apply Hk.
Qed.

Lemma appending_wf s s' : well_formed s → appending s s' → well_formed s'.
Proof.
  intros [Hb Hk] [O _ N A]. split.
  - intros b c. rewrite O. intros Hc.
    destruct (Hb b c Hc) as (? & [xs Hxs] & ?). split_and!; [done| |done].
    destruct (A _ _ Hxs) as (ys & ->). by eexists.
  - intros b kids k. unfold children_of. rewrite O. apply Hk.
Qed.

Lemma for_each_returns (body : addr → M unit) (I : Store → Prop) kids :
  (∀ k s, k ∈ kids → I s → ∃ s', body k s = Ok (tt, s') ∧ I s') →
  ∀ s, I s → ∃ s', for_each kids body s = Ok (tt, s') ∧ I s'.
Proof.
  induction kids as [|k kids IH]; intros Hbody s Hs; simpl; [by eexists|].
  destruct (Hbody k s) as (s1 & Hk & Hs1); [left|done|].
  erewrite bind_run by done. apply IH; [|done].
  intros k' s0 ? ?. apply Hbody; [by right|done].
Qed.

(** On a well-formed store [clear_clump_info] returns, after at most as
    many nested calls as there are clumps from the one it starts on, and
    the store it leaves is well formed, with the same clumps. *)
Theorem clear_clump_info_returns fuel a s :
  well_formed s → a < length (objs s) → length (objs s) - a ≤ fuel →
  ∃ s', clear_clump_info fuel a s = Ok (tt, s') ∧ well_formed s' ∧
        length (objs s') = length (objs s).
Proof.
  revert a s. induction fuel as [|fuel IH]; intros a s Hwf Ha Hfuel; [lia|].
  destruct (lookup_lt_is_Some_2 _ _ Ha) as [c Hc].
  destruct (rebind_clump_info_clearing a s c Hc) as (Hclr0 & _ & _).
  set (s0 := mkStore _ _ _) in Hclr0.
  pose proof (clearing_wf _ _ Hwf Hclr0) as Hwf0.
  simpl.
  assert (Hrun0 : (new_list [] ≫= λ l, upd_obj a (set_clump_info l) ≫= λ _,
                   mret tt) s = Ok (tt, s0)).
  { unfold new_list, upd_obj, mbind, M_bind. simpl. by rewrite Hc. }
  unfold mbind at 1, M_bind at 1. unfold new_list at 1.
  unfold mbind at 1, M_bind at 1. unfold upd_obj at 1. simpl. rewrite Hc.
  change (with_objs _ _) with s0.
  assert (Hc0 : objs s0 !! a = Some (set_clump_info (length (lists s)) c)).
  { simpl. by apply list_lookup_insert_eq. }
  erewrite bind_run by (by apply get_obj_run). simpl.
  destruct (children c) as [kids|] eqn:Hkids.
  2:{ eexists. split_and!; [done|done|]. simpl. by rewrite length_insert. }
  destruct (for_each_returns (λ child, clear_clump_info fuel child)
              (λ s1, well_formed s1 ∧ length (objs s1) = length (objs s))
              kids) with (s := s0) as (s' & Hrun & Hwf' & Hlen').
  - intros k s1 Hk [Hwf1 Hlen1].
    destruct (wf_kids _ Hwf a kids k); [by rewrite (children_of_Some s a c)|done|].
    destruct (IH k s1) as (s2 & Hk2 & Hwf2 & Hlen2); [done|lia|lia|].
    exists s2. split_and!; [done..|lia].
  - split; [done|]. simpl. by rewrite length_insert.
  - by exists s'.
Qed.

(** On a well-formed store [add_info_item] returns when the registry knows
    the name, with the parameters for the clump and alone for its
    descendants: no exception, at most as many nested calls as there are
    clumps from the one it starts on, and the same clumps in a well-formed
    store afterwards. *)
Theorem add_info_item_returns fuel a name params cb cb0 s :
  well_formed s → a < length (objs s) → length (objs s) - a ≤ fuel →
  registry_find name params = Some cb →
  registry_find name no_params = Some cb0 →
  ∃ s', add_info_item fuel a name params s = Ok (tt, s') ∧ well_formed s' ∧
        objs s' = objs s.
Proof.
  intros Hwf Ha Hfuel Hcb Hcb0. revert a params cb s Hwf Ha Hfuel Hcb.
  induction fuel as [|fuel IH]; intros a params cb s Hwf Ha Hfuel Hcb; [lia|].
  destruct (lookup_lt_is_Some_2 _ _ Ha) as [c Hc].
  destruct (wf_built _ Hwf a c Hc) as (_ & [xs Hxs] & _).
  pose proof (list_append_appending _ cb _ _ Hxs) as Happ.
  set (s1 := with_lists _ s) in Happ.
  pose proof (appending_wf _ _ Hwf Happ) as Hwf1.
  simpl. rewrite Hcb.
  erewrite bind_run by reflexivity.
  erewrite bind_run by (by apply get_obj_run).
  erewrite bind_run by (by apply list_append_run).
  erewrite bind_run by (by apply get_obj_run).
  destruct (children c) as [kids|] eqn:Hkids; [|by eexists].
  destruct (for_each_returns
              (λ child, add_info_item fuel child name no_params)
              (λ s2, well_formed s2 ∧ objs s2 = objs s)
              kids) with (s := s1) as (s' & Hrun & Hwf' & Hobjs').
  - intros k s2 Hk [Hwf2 Hobjs2].
    destruct (wf_kids _ Hwf a kids k); [by rewrite (children_of_Some s a c)|done|].
    destruct (IH k no_params cb0 s2) as (s3 & Hk3 & Hwf3 & Hobjs3);
      [done|rewrite Hobjs2; lia|rewrite Hobjs2; lia|done|].
    exists s3. split_and!; [done..|congruence].
  - done.
  - by exists s'.
Qed.

(** ** What [find_clumps] leaves alone *)

(** [find_clumps] on a clump changes nothing of it but [children]: its
    data, field, bounds, info list, validity test and cached validity are
    as before (the validity of the clump itself is never tested).  Every
    other clump that existed is left as it was, and so is every list
    object. *)
Theorem find_clumps_changes_only_children fuel a mn mx d s s' :
  constructed s a → find_clumps fuel a mn mx d s = Ok (tt, s') →
  (∃ c ch, objs s !! a = Some c ∧ objs s' !! a = Some (set_children ch c)) ∧
  (∀ b, b < length (objs s) → b ≠ a → objs s' !! b = objs s !! b) ∧
  length (objs s) ≤ length (objs s') ∧
  lists s `prefix_of` lists s'.
Proof.
  intros Hcon Hrun. apply find_clumps_effect in Hrun as [Heff _]; [|done].
  destruct Heff as [Hlen Hold Hself Hlists _ _ _]. done.
Qed.

(** ** The clumps of the finished tree *)






(** ** The children that [find_children] makes *)

(** Every child that [find_children] makes has the node as its parent and
    the field, the cached fields and the validity test of the node, its
    bounds taken from its own region, no cached validity and no children
    yet.  It has an info list of its own: a new list object, shared with no
    other child, holding the items that the list of the node holds. *)
Theorem find_children_children_inherit self mn mxo s c cf xs s' kids :
  objs s !! self = Some c → cached_fields c = Has cf →
  lists s !! clump_info c = Some xs →
  find_children self mn mxo s = Ok (tt, s') →
  children_of s' self = Some kids →
  (∀ k, k ∈ kids →
     ∃ ck, objs s' !! k = Some ck ∧
           parent ck = PObj self ∧ field ck = field c ∧
           cached_fields ck = Has cf ∧
           function ck = Some (default default_function (function c)) ∧
           min_val ck = field_min (data ck) (field c) ∧
           max_val ck = field_max (data ck) (field c) ∧
           function_value ck = None ∧ children ck = None ∧
           lists s !! clump_info ck = None ∧
           lists s' !! clump_info ck = Some xs) ∧
  (∀ k1 k2 c1 c2, k1 ∈ kids → k2 ∈ kids →
     objs s' !! k1 = Some c1 → objs s' !! k2 = Some c2 →
     clump_info c1 = clump_info c2 → k1 = k2) ∧
  lists s' !! clump_info c = Some xs.
Proof.
  intros Hc Hcf Hxs Hrun Hkids.
  rewrite (find_children_run self mn mxo s c cf xs Hc Hcf Hxs) in Hrun.
  injection Hrun as <-.
  set (cids := (identify_contours _ _ _ _).2) in *.
  set (ids := child_ids _ _ _ _) in *.
  assert (Hlt : self < length (objs s)) by (by eapply lookup_lt_Some).
  unfold children_of in Hkids. rewrite after_children_self in Hkids by done.
  simpl in Hkids. injection Hkids as <-.
  assert (Hnew : ∀ k, k ∈ seq (length (objs s)) (length ids) →
    ∃ cid, objs (after_children s self c cids cf xs ids) !! k =
      Some (child_of c self cids cf
              (length (lists s) + (k - length (objs s))) cid) ∧
      k - length (objs s) < length ids).
  { intros k Hk%elem_of_seq.
    destruct (lookup_lt_is_Some_2 ids (k - length (objs s))) as [cid Hcid];
      [lia|].
    exists cid. split; [|lia].
    replace k with (length (objs s) + (k - length (objs s))) at 1 by lia.
    by rewrite after_children_new, Hcid. }
  split_and!.
  - intros k Hk. destruct (Hnew k Hk) as (cid & Hck & Hi).
    eexists. split; [done|]. simpl. split_and!; try done.
    + apply lookup_ge_None_2. lia.
    + rewrite lookup_app_r by lia. apply lookup_replicate_2. lia.
  - intros k1 k2 c1 c2 Hk1 Hk2 Hc1 Hc2 Heq.
    destruct (Hnew k1 Hk1) as (cid1 & Hc1' & _).
    destruct (Hnew k2 Hk2) as (cid2 & Hc2' & _).
    rewrite Hc1 in Hc1'. rewrite Hc2 in Hc2'.
    injection Hc1' as ->. injection Hc2' as ->. simpl in Heq.
    apply elem_of_seq in Hk1, Hk2. lia.
  - simpl. by apply lookup_app_l_Some.
Qed.

(** ** How often the validity test is run *)

Lemma find_children_evals a mn mxo s s1 :
  constructed s a → find_children a mn mxo s = Ok (tt, s1) →
  evals s1 = evals s.
Proof.
  intros (c & cf & xs & Hc & Hcf & Hxs) Hrun.
  rewrite (find_children_run a mn mxo s c cf xs Hc Hcf Hxs) in Hrun.
  by injection Hrun as <-.
Qed.

Lemma _isValid_evals k s v s' :
  _isValid k s = Ok (v, s') → evals s' ≤ S (evals s).
Proof.
  intros H. apply _isValid_Ok in H
    as (c & Hc & [[Hfv ->]|(Hfv & f & Hf & -> & ->)]); simpl; lia.
Qed.

Lemma investigate_evals (recurse : addr → M unit) :
  (∀ k s s', well_formed s → k < length (objs s) →
     recurse k s = Ok (tt, s') →
     well_formed s' ∧ length (objs s) ≤ length (objs s') ∧
     evals s' + length (objs s) ≤ evals s + length (objs s')) →
  ∀ rest these s these' s',
    investigate recurse rest these s = Ok (these', s') →
    well_formed s → (∀ k, k ∈ rest → k < length (objs s)) →
    evals s' + length (objs s) ≤ evals s + length (objs s') + length rest.
Proof.
  intros Hrec. induction rest as [|k0 rest IH];
    intros these s these' s' Hrun Hwf Hrest; simpl in Hrun.
  { injection Hrun as <- <-. simpl. lia. }
  apply bind_Ok in Hrun as ([] & sa & Hk0 & Hrun).
  apply Hrec in Hk0 as (Hwfa & Hlena & Hevala); [|done|apply Hrest; left].
  apply bind_Ok in Hrun as (c & ? & [Hc ->]%get_obj_Ok & Hrun).
  assert (Hresta : ∀ k, k ∈ rest → k < length (objs sa)).
  { intros k Hk. pose proof (Hrest k ltac:(by right)). lia. }
  destruct (has_children c).
  - apply IH in Hrun; [|done..]. simpl. lia.
  - apply bind_Ok in Hrun as (v & sb & Hval & Hrun).
    pose proof (_isValid_evals _ _ _ _ Hval) as Hevalb.
    apply _isValid_wf in Hval as (Hwfb & Hlenb); [|done].
    rewrite <-Hlenb in Hresta.
    destruct v; apply IH in Hrun; try done; simpl; lia.
Qed.

Lemma find_clumps_evals fuel :
  ∀ a mn mx d s s',
    well_formed s → a < length (objs s) →
    find_clumps fuel a mn mx d s = Ok (tt, s') →
    evals s' + length (objs s) ≤ evals s + length (objs s').
Proof.
  induction fuel as [|fuel IH]; intros a mn mx d s s' Hwf Ha Hrun; [done|].
  simpl in Hrun. destruct (val_ge mn mx).
  { injection Hrun as <-. lia. }
  apply bind_Ok in Hrun as ([] & s1 & Hfc & Hrun).
  pose proof (find_children_evals _ _ _ _ _ (wf_constructed s a Hwf Ha) Hfc)
    as Hev1.
  apply find_children_wf_Ok in Hfc as (n & Hwf1 & Hkids & Hlen1); [|done..].
  apply bind_Ok in Hrun as (c1 & ? & [Hc1 ->]%get_obj_Ok & Hrun).
  rewrite (children_of_Some _ _ _ Hc1) in Hkids. rewrite Hkids in Hrun.
  rewrite length_seq in Hrun.
  case_bool_decide.
  { apply IH in Hrun; [|done|lia]. lia. }
  case_bool_decide.
  2:{ injection Hrun as <-. lia. }
  apply bind_Ok in Hrun as (these & s2 & Hloop & Hrun).
  apply investigate_evals in Hloop; [|..|done|].
  - rewrite length_seq in Hloop.
    apply link_survivors_Ok in Hrun as (c2 & ch & _ & -> & _). simpl.
    rewrite length_insert. lia.
  - intros k s0 s0' Hwf0 Hk Hr.
    pose proof (IH _ _ _ _ _ _ Hwf0 Hk Hr).
    apply find_clumps_wf in Hr as [? ?]; done.
  - intros k Hk%elem_of_seq. lia.
Qed.

(** [find_clumps] runs the validity test at most once for each clump it
    makes: the number of [eval] calls of a call is at most the number of
    clumps that the call adds to the store. *)
Theorem find_clumps_tests_each_clump_once fuel a mn mx d s s' :
  well_formed s → a < length (objs s) →
  find_clumps fuel a mn mx d s = Ok (tt, s') →
  length (objs s) ≤ length (objs s') ∧
  evals s' + length (objs s) ≤ evals s + length (objs s').
Proof.
  intros Hwf Ha Hrun. split.
  - by apply find_clumps_wf in Hrun as [_ ?].
  - by eapply find_clumps_evals.
Qed.

End MoreFacts.

Module MoreRuns.
Import Line.

Lemma write_info_appends_lines_witness :
  write_info root55 0 2 (open_w "clumps.txt")
  = Ok (mkFile ([] ++ info_lines root55 0 2 (default [] (lists root55 !! 1)))
               false).
Proof.
  apply (write_info_appends_lines (Ev := evaluators) root55 0
           (clump_at root55 0) (default [] (lists root55 !! 1)) 2
           (open_w "clumps.txt")); reflexivity.
Defined.

Lemma writers_append_to_open_file_witness :
  ∃ f', write_clump_index 5 tree3 0 0 (Handle (open_w "index.txt")) = Ok f' ∧
        closed f' = false ∧ [] `prefix_of` written f'.
Proof.
  eexists. split; [vm_compute; reflexivity|].
  apply (writers_append_to_open_file (Ev := evaluators) 5 tree3 0 0
           (open_w "index.txt")).
  left. vm_compute. reflexivity.
Defined.

Lemma writers_close_the_file_they_open_witness :
  ∃ f', write_clump_index 5 tree3 0 0 (Path "index.txt") = Ok f' ∧
        closed f' = true.
Proof.
  destruct (writers_close_the_file_they_open (Ev := evaluators) 5 tree3 0 0
              "index.txt") as (_ & _ & H).
  eexists. split; [vm_compute; reflexivity|].
  apply H. left. vm_compute. reflexivity.
Defined.

Lemma get_lowest_clumps_are_the_childless_witness :
  get_lowest_clumps 5 tree3 0 None = Ok [1; 5; 7] ∧
  reach tree3 0 7 ∧ childless tree3 7.
Proof.
  split; [vm_compute; reflexivity|].
  apply (get_lowest_clumps_are_the_childless 5 tree3 0 [1; 5; 7]).
  - vm_compute. reflexivity.
  - do 2 right. left.
Defined.

Lemma write_clumps_writes_the_lowest_clumps_witness :
  write_clumps 5 tree3 0 2 (Handle (open_w "leaves.txt"))
  = write_each (leaf_block tree3 0) [1; 5; 7] (open_w "leaves.txt").
Proof.
  apply (write_clumps_writes_the_lowest_clumps (Ev := evaluators) 5 tree3 0 2
           (open_w "leaves.txt") [1; 5; 7]).
  vm_compute. reflexivity.
Defined.

Lemma clear_clump_info_clears_the_tree_witness :
  ∃ s', clear_clump_info 5 0 tree3 = Ok (tt, s') ∧
        holds_new_empty_list tree3 s' 7.
Proof.
  eexists. split; [vm_compute; reflexivity|].
  eapply (clear_clump_info_clears_the_tree 5 0 tree3).
  - vm_compute. reflexivity.
  - apply (reach_step tree3 0 [1; 3] 3); [reflexivity|by right; left|].
    apply (reach_step tree3 3 [5; 6] 6); [reflexivity|by right; left|].
    apply (reach_step tree3 6 [7] 7); [reflexivity|by left|constructor].
Defined.

Lemma add_info_item_reaches_the_tree_witness :
  ∃ s', add_info_item 5 0 "distance_to_main_clump" [10%Z] tree3
        = Ok (tt, s') ∧
        gained tree3 s' 0 ("distance_to_main_clump", [10%Z]) ∧
        objs s' = objs tree3.
Proof.
  eexists. split; [vm_compute; reflexivity|].
  edestruct (add_info_item_reaches_the_tree (Co := collaborators) 5 0
               "distance_to_main_clump" ([10%Z] : @Params collaborators) tree3)
    as (Happ & (cb & Hcb & Hg) & _).
  - vm_compute. reflexivity.
  - injection Hcb as <-. split; [exact Hg|]. apply Happ.
Defined.

Lemma Clump_init_default_info_witness :
  root_over [] 1 empty_store = Raise ValueError ∧
  ∃ l s', root_over [5; 5]%Z 1 empty_store = Ok (0, s') ∧
          lists s' !! l = Some (map (λ name, (name, [])) default_info_items).
Proof.
  split.
  - apply (Clump_init_default_info (Co := collaborators)
             ([] : @Region collaborators) PNone tt tt (Some 1)
             (map (λ name, (name, [])) default_info_items) empty_store);
      [repeat constructor|reflexivity].
  - destruct (Clump_init_default_info (Co := collaborators)
                ([5; 5]%Z : @Region collaborators) PNone tt tt (Some 1)
                (map (λ name, (name, [])) default_info_items) empty_store)
      as [_ Hok]; [repeat constructor|].
    destruct Hok as (l & s' & ? & _ & _ & _ & ? & _); [simpl; lia|].
    by exists l, s'.
Defined.

Lemma root3_well_formed : well_formed root3.
Proof.
  split.
  - intros b c Hc. destruct b as [|b]; [|done]. injection Hc as <-.
    split_and!; by eexists.
  - intros b kids k Hk. destruct b as [|b]; done.
Qed.

Lemma tree3_well_formed : well_formed tree3.
Proof.
  split.
  - intros b c Hc.
    do 8 (destruct b as [|b];
          [injection Hc as <-; split_and!; by eexists|]).
    done.
  - intros b kids k Hk Hin.
    do 8 (destruct b as [|b];
          [try done; injection Hk as <-;
           repeat (apply elem_of_cons in Hin as [->|Hin]; [simpl; lia|]);
           by apply elem_of_nil in Hin|]).
    done.
Qed.

Lemma find_clumps_builds_a_tree_witness :
  find_clumps 10 0 1%Z 10%Z 2%Z root3 = Ok (tt, tree3) ∧ well_formed tree3.
Proof.
  split; [vm_compute; reflexivity|].
  apply (find_clumps_builds_a_tree (Ev := evaluators) 10 0 1%Z 10%Z 2%Z
           root3 tree3).
  - exact root3_well_formed.
  - simpl. lia.
  - vm_compute. reflexivity.
Defined.

Lemma find_clumps_returns_witness :
  ∃ s', find_clumps 5 0 1%Z 10%Z 2%Z root3 = Ok (tt, s').
Proof.
  apply (find_clumps_returns (Ev := evaluators) 4 0 1%Z 10%Z 2%Z root3).
  - exact root3_well_formed.
  - simpl. lia.
  - reflexivity.
Defined.

Lemma readers_return_witness :
  (∃ leaves, get_lowest_clumps 8 tree3 0 None = Ok leaves) ∧
  (∃ f, write_clump_index 8 tree3 0 0 (Path "clumps.txt") = Ok f) ∧
  (∃ f, write_clumps 8 tree3 0 0 (Path "clumps.txt") = Ok f).
Proof.
  apply (readers_return (Ev := evaluators) 8 tree3 0 None 0
           (Path "clumps.txt")).
  - exact tree3_well_formed.
  - simpl. lia.
  - simpl. lia.
Defined.

Lemma clear_clump_info_returns_witness :
  ∃ s', clear_clump_info 8 0 tree3 = Ok (tt, s') ∧ well_formed s' ∧
        length (objs s') = 8.
Proof.
  apply (clear_clump_info_returns 8 0 tree3).
  - exact tree3_well_formed.
  - simpl. lia.
  - simpl. lia.
Defined.

Lemma add_info_item_returns_witness :
  ∃ s', add_info_item 8 0 "distance_to_main_clump" [10%Z] tree3
        = Ok (tt, s') ∧ well_formed s' ∧ objs s' = objs tree3.
Proof.
  apply (add_info_item_returns (Co := collaborators) 8 0
           "distance_to_main_clump" ([10%Z] : @Params collaborators)
           ("distance_to_main_clump", [10%Z]) ("distance_to_main_clump", [])
           tree3).
  - exact tree3_well_formed.
  - simpl. lia.
  - simpl. lia.
  - reflexivity.
  - reflexivity.
Defined.

Lemma find_clumps_changes_only_children_witness :
  find_clumps 10 0 1%Z 10%Z 2%Z root3 = Ok (tt, tree3) ∧
  lists root3 `prefix_of` lists tree3.
Proof.
  split; [vm_compute; reflexivity|].
  apply (find_clumps_changes_only_children (Ev := evaluators) 10 0 1%Z 10%Z
           2%Z root3 tree3).
  - exact Runs.root3_constructed.
  - vm_compute. reflexivity.
Defined.


Lemma find_children_children_inherit_witness :
  find_children 0 1%Z None root3 = Ok (tt, split3) ∧
  ∃ ck, objs split3 !! 2 = Some ck ∧ parent ck = PObj 0 ∧
        lists split3 !! clump_info ck = lists root3 !! 1.
Proof.
  split; [vm_compute; reflexivity|].
  destruct (find_children_children_inherit (Co := collaborators)
              0 1%Z None root3 (clump_at root3 0) tt
              (default [] (lists root3 !! 1)) split3 [1; 2; 3])
    as (Hkids & _ & _); try reflexivity.
  destruct (Hkids 2) as (ck & ? & ? & _ & _ & _ & _ & _ & _ & _ & _ & ?);
    [by right; left|].
  by exists ck.
Defined.

Lemma find_clumps_tests_each_clump_once_witness :
  find_clumps 10 0 1%Z 10%Z 2%Z root3 = Ok (tt, tree3) ∧
  length (objs root3) ≤ length (objs tree3) ∧
  evals tree3 + length (objs root3) ≤ evals root3 + length (objs tree3).
Proof.
  split; [vm_compute; reflexivity|].
  apply (find_clumps_tests_each_clump_once (Ev := evaluators) 10 0 1%Z 10%Z
           2%Z root3 tree3).
  - exact root3_well_formed.
  - simpl. lia.
  - vm_compute. reflexivity.
Defined.

End MoreRuns.
